(** * Aspire Chess Academy backend: tournament lifecycle and admin mutations

    A shallow embedding of [models/Tournament.js] and of the tournament
    routes (the Express router that requires [../models/Tournament] and
    [../config/cloudinary]), together with [config/cloudinary.js].

    - A JavaScript [Date] is its time value: milliseconds since the epoch,
      an integer ([Z]).
    - A JavaScript number that the code uses as a count is an integer ([Z]).
    - A JavaScript string is the sequence of its code units; the strings of
      the model are those whose code units are all below 256.
    - The MongoDB collection is a finite map from [_id] to document, the
      Cloudinary account a finite set of public ids.
    - An [async] route handler is a computation over that world which ends
      by sending a response ([res.json]), or by throwing. *)

From Stdlib Require Import ZArith Lia Ascii String.
From stdpp Require Import base option list gmap sets strings sorting.

Local Open Scope string_scope.
Local Open Scope Z_scope.

(** ** JavaScript strings and values *)

Module JsString.

(** A string is the sequence of its code units, each below 256.

    The white space and the line terminators that [String.prototype.trim]
    removes (and with it the [trim] setter of a schema path and the [trim]
    sanitizer of the validation chain, whose [\s] is the same set): among
    the code units below 256 these are TAB, LF, VT, FF, CR, SPACE and
    NO-BREAK SPACE (U+00A0).  The others (U+1680, U+2000 to U+200A, U+2028,
    U+2029, U+202F, U+205F, U+3000 and U+FEFF) lie above 255. *)
Definition isWhiteSpace (c : ascii) : bool :=
  let n := Z.of_nat (nat_of_ascii c) in
  ((9 <=? n) && (n <=? 13)) || (n =? 32) || (n =? 160).

Fixpoint trimStart (s : string) : string :=
  match s with
  | EmptyString => EmptyString
  | String c s' => if isWhiteSpace c then trimStart s' else s
  end.

(** The end is trimmed from the back: once the rest is all white space,
    a white-space character goes as well. *)
Fixpoint trimEnd (s : string) : string :=
  match s with
  | EmptyString => EmptyString
  | String c s' =>
      match trimEnd s' with
      | EmptyString => if isWhiteSpace c then EmptyString else String c EmptyString
      | r => String c r
      end
  end.

Definition trim (s : string) : string := trimEnd (trimStart s).

Fixpoint reverse_onto (s acc : string) : string :=
  match s with
  | EmptyString => acc
  | String c s' => reverse_onto s' (String c acc)
  end.

Definition reverse (s : string) : string := reverse_onto s EmptyString.

(** JavaScript truthiness of a string: the empty string is falsy. *)
Definition truthy (s : string) : bool :=
  match s with EmptyString => false | String _ _ => true end.

Definition length (s : string) : Z := Z.of_nat (String.length s).

(** [a || b] where [a] is an absent or numeric value: [undefined] and [0]
    are falsy. *)
Definition orElse (a : option Z) (b : Z) : Z :=
  match a with
  | Some n => if n =? 0 then b else n
  | None => b
  end.

End JsString.

(** ** The clock *)

(** [new Date()] reads the wall clock; [toDateString] formats a date in the
    local time zone.  The time zone is a fixed offset from UTC. *)
Record Clock := {
  now : Z;        (* time value of [new Date()], ms since the epoch *)
  tzOffset : Z;   (* local time minus UTC, ms *)
}.

Definition msPerDay : Z := 86400000.

(** [d.toDateString()] prints week day, month, day of the month and year of
    [d] in local time.  Two such strings are equal exactly when the two dates
    fall on the same local calendar day, so the string is represented by the
    number of that day. *)
Definition toDateString (tz : Z) (d : Z) : Z := (d + tz) / msPerDay.

(** ** models/Tournament.js *)

Module Tournament.

(** [status: enum ['upcoming', 'ongoing', 'completed', 'cancelled']] *)
Inductive Status := upcoming | ongoing | completed | cancelled.

#[global] Instance Status_eq_dec : EqDecision Status.
Proof. solve_decision. Defined.

Definition Status_to_string (s : Status) : string :=
  match s with
  | upcoming => "upcoming"
  | ongoing => "ongoing"
  | completed => "completed"
  | cancelled => "cancelled"
  end.

(** A document of the collection, by its declared paths.  The fields that
    are only displayed ([time], [address], [entryFee], [prizePool], [format],
    [timeControl], [registrationLink], [poster], [description]) are left out:
    no modelled code path reads them.  So are [createdAt] and [updatedAt],
    which the schema option [timestamps: true] has mongoose maintain (every
    save that writes sets [updatedAt]) and which no route reads: what is said
    below of a stored record is said of the paths listed here. *)
Record doc := {
  _id : Z;
  name : string;
  date : Z;
  location : string;
  category : string;
  maxParticipants : Z;
  currentParticipants : Z;        (* default: 0 *)
  posterImage : option string;    (* default: null *)
  listUntil : Z;
  status : Status;                (* default: 'upcoming' *)
  isActive : bool;                (* default: true *)
  winner : option string;         (* default: null *)
  finalParticipants : option Z;   (* default: null *)
}.

#[global] Instance doc_eq_dec : EqDecision doc.
Proof. solve_decision. Defined.

Definition set_status (s : Status) (t : doc) : doc :=
  {| _id := _id t; name := name t; date := date t; location := location t;
     category := category t; maxParticipants := maxParticipants t;
     currentParticipants := currentParticipants t;
     posterImage := posterImage t; listUntil := listUntil t;
     status := s; isActive := isActive t; winner := winner t;
     finalParticipants := finalParticipants t |}.

Definition set_currentParticipants (n : Z) (t : doc) : doc :=
  {| _id := _id t; name := name t; date := date t; location := location t;
     category := category t; maxParticipants := maxParticipants t;
     currentParticipants := n;
     posterImage := posterImage t; listUntil := listUntil t;
     status := status t; isActive := isActive t; winner := winner t;
     finalParticipants := finalParticipants t |}.

Definition set_isActive (b : bool) (t : doc) : doc :=
  {| _id := _id t; name := name t; date := date t; location := location t;
     category := category t; maxParticipants := maxParticipants t;
     currentParticipants := currentParticipants t;
     posterImage := posterImage t; listUntil := listUntil t;
     status := status t; isActive := b; winner := winner t;
     finalParticipants := finalParticipants t |}.

Definition set_winner (w : option string) (t : doc) : doc :=
  {| _id := _id t; name := name t; date := date t; location := location t;
     category := category t; maxParticipants := maxParticipants t;
     currentParticipants := currentParticipants t;
     posterImage := posterImage t; listUntil := listUntil t;
     status := status t; isActive := isActive t; winner := w;
     finalParticipants := finalParticipants t |}.

Definition set_finalParticipants (n : option Z) (t : doc) : doc :=
  {| _id := _id t; name := name t; date := date t; location := location t;
     category := category t; maxParticipants := maxParticipants t;
     currentParticipants := currentParticipants t;
     posterImage := posterImage t; listUntil := listUntil t;
     status := status t; isActive := isActive t; winner := winner t;
     finalParticipants := n |}.

(** [doc.winner = w]: the path is declared [trim: true], so the setter
    trims what is assigned. *)
Definition assign_winner (w : string) (t : doc) : doc :=
  set_winner (Some (JsString.trim w)) t.

(** The enumerated categories of the schema. *)
Definition categories : list string :=
  ["Open Tournament"; "Youth (Under 18)"; "Online Blitz"; "Rapid";
   "Classical"; "Blitz"].

(** The validators of the schema on the modelled fields, run by [save]:
    [name] required, at most 150 characters; [location] required, at most
    200; [maxParticipants] at least 1; [currentParticipants] at least 0;
    [category] in the enum. *)
Definition schemaValid (t : doc) : bool :=
  JsString.truthy (name t) && (JsString.length (name t) <=? 150)
  && JsString.truthy (location t) && (JsString.length (location t) <=? 200)
  && (1 <=? maxParticipants t)
  && (0 <=? currentParticipants t)
  && bool_decide (category t ∈ categories).

(** [methods.updateStatus], the assignment to [this.status]:
<<
    if (now > tournamentDate)            this.status = 'completed';
    else if (now.toDateString() === tournamentDate.toDateString())
                                         this.status = 'ongoing';
    else                                 this.status = 'upcoming';
>>    The method then returns [this.save()]; see [Routes.updateStatus]. *)
Definition statusAt (c : Clock) (tournamentDate : Z) : Status :=
  if now c >? tournamentDate then completed
  else if toDateString (tzOffset c) (now c) =? toDateString (tzOffset c) tournamentDate
       then ongoing
       else upcoming.

Definition assignStatus (c : Clock) (t : doc) : doc :=
  set_status (statusAt c (date t)) t.

(** [virtual('isExpired')]: [new Date() > this.listUntil] *)
Definition isExpired (c : Clock) (t : doc) : bool := now c >? listUntil t.

End Tournament.

(** ** config/cloudinary.js: the public id of a Cloudinary URL *)

Module Cloudinary.

(** The resolved value of [uploadToCloudinary], as far as it is read. *)
Record UploadResult := { secure_url : string; public_id : string }.

Definition slash : ascii := "/"%char.
Definition dot : ascii := "."%char.

(** [span p s]: the longest prefix of [s] whose characters satisfy [p], and
    the rest. *)
Fixpoint span (p : ascii -> bool) (s : string) : string * string :=
  match s with
  | EmptyString => (EmptyString, EmptyString)
  | String c s' =>
      if p c then let '(a, b) := span p s' in (String c a, b)
      else (EmptyString, s)
  end.

Definition notSlash (c : ascii) : bool := negb (Ascii.eqb c slash).
Definition notDot (c : ascii) : bool := negb (Ascii.eqb c dot).

(** [(?:\.[^.]+)?$] at [rest]: nothing is left, or a dot followed by one or
    more characters other than a dot, up to the end. *)
Definition extensionToEnd (rest : string) : bool :=
  match rest with
  | EmptyString => true
  | String c e =>
      Ascii.eqb c dot && JsString.truthy e
      && bool_decide (snd (span notDot e) = EmptyString)
  end.

(** The second [[^\/]+] of the group is greedy: it first takes the whole
    run [seg2] of characters other than a slash and gives characters back
    one at a time, down to one, until the rest of the pattern matches.
    [taken] holds the characters kept so far, reversed; [given] the ones
    given back. *)
Fixpoint backtrack (taken given rest : string) : option string :=
  match taken with
  | EmptyString => None
  | String c taken' =>
      if extensionToEnd (given ++ rest)%string then Some (JsString.reverse taken)
      else backtrack taken' (String c given) rest
  end.

(** [([^\/]+\/[^\/]+)(?:\.[^.]+)?$] at [r], the text that follows an
    occurrence of [/aspire-chess-academy/]: the captured group. *)
Definition matchGroup (r : string) : option string :=
  let '(seg1, rest1) := span notSlash r in
  match seg1, rest1 with
  | String _ _, String _ rest2 =>
      let '(seg2, rest3) := span notSlash rest2 in
      match backtrack (JsString.reverse seg2) EmptyString rest3 with
      | Some kept => Some (seg1 ++ "/" ++ kept)%string
      | None => None
      end
  | _, _ => None
  end.

Definition marker : string := "/aspire-chess-academy/".

Fixpoint stripPrefix (p s : string) : option string :=
  match p, s with
  | EmptyString, _ => Some s
  | String a p', String b s' => if Ascii.eqb a b then stripPrefix p' s' else None
  | String _ _, EmptyString => None
  end.

(** [cloudinaryUrl.match(/\/aspire-chess-academy\/([^\/]+\/[^\/]+)(?:\.[^.]+)?$/)]:
    the start positions are tried from left to right. *)
Fixpoint matchUrl (url : string) : option string :=
  let here :=
    match stripPrefix marker url with
    | Some r => matchGroup r
    | None => None
    end in
  match here, url with
  | Some g, _ => Some g
  | None, String _ url' => matchUrl url'
  | None, EmptyString => None
  end.

(** [extractPublicId]:
<<
    if (!cloudinaryUrl) return null;
    const matches = cloudinaryUrl.match(...);
    return matches ? `aspire-chess-academy/${matches[1]}` : null;
>> *)
Definition extractPublicId (cloudinaryUrl : option string) : option string :=
  match cloudinaryUrl with
  | None => None
  | Some url =>
      if JsString.truthy url then
        match matchUrl url with
        | Some g => Some ("aspire-chess-academy/" ++ g)%string
        | None => None
        end
      else None
  end.

End Cloudinary.

(** ** The world of a request *)

(** What a handler can throw. *)
Inductive JsError :=
| CastError                        (* mongoose: the id is not an ObjectId *)
| ValidationError                  (* mongoose: a schema validator rejected the document *)
| MongoError                       (* the record store call failed *)
| CloudinaryError                  (* the blob store call failed *)
| ReferenceError (ident : string). (* the identifier is not in scope *)

#[global] Instance JsError_eq_dec : EqDecision JsError.
Proof. solve_decision. Defined.

(** The record store (the [tournaments] collection) and the blob store (the
    public ids held by Cloudinary). *)
Record World := {
  db : gmap Z Tournament.doc;
  blobs : gset string;
}.

(** What the surroundings decide during one request: the clock (read as one
    instant for the whole request), which calls to the two stores fail, the
    result of an upload, the [_id] that mongoose gives a new document, and
    MongoDB's [$regex] matching.  [saveFails t] tells whether the record
    store refuses the write of [t]. *)
Record Env := {
  clock : Clock;
  findFails : bool;
  saveFails : Tournament.doc -> bool;
  uploadResult : option Cloudinary.UploadResult;
  destroyFails : string -> bool;
  newObjectId : Z;
  regexTest : string -> string -> string -> bool; (* pattern, options, subject *)
}.

(** The JSON body of a response. *)
Inductive Payload :=
| NoData
| Doc (t : Tournament.doc)
| Docs (ts : list Tournament.doc)
| Page (total totalPages currentPage : Z) (ts : list Tournament.doc).

Record Response := {
  code : Z;
  success : bool;
  message : string;
  data : Payload;
}.

(** How a piece of handler code completes: normally with a value, by sending
    the response and returning from the handler ([return res.json(...)], or
    [res.json(...)] as the last statement), or by throwing. *)
Inductive Completion (A : Type) :=
| Normal (a : A)
| Sent (r : Response)
| Thrown (e : JsError).
Arguments Normal {A} a.
Arguments Sent {A} r.
Arguments Thrown {A} e.

Definition Handler (A : Type) : Type := World -> Completion A * World.

#[global] Instance Handler_ret : MRet Handler :=
  fun A a w => (Normal a, w).

#[global] Instance Handler_bind : MBind Handler :=
  fun A B f m w =>
    match m w with
    | (Normal a, w') => f a w'
    | (Sent r, w') => (Sent r, w')
    | (Thrown e, w') => (Thrown e, w')
    end.

#[global] Instance Handler_throw : MThrow JsError Handler :=
  fun A e w => (Thrown e, w).

(** [try { body } catch (error) { handler }] *)
Definition try_catch {A} (body : Handler A) (handler : JsError -> Handler A) : Handler A :=
  fun w =>
    match body w with
    | (Thrown e, w') => handler e w'
    | other => other
    end.

(** [res.status(code).json({ success, message, data })] *)
Definition json {A} (code : Z) (success : bool) (message : string) (data : Payload) : Handler A :=
  fun w => (Sent {| code := code; success := success; message := message; data := data |}, w).

(** Evaluating an identifier that no enclosing scope declares throws a
    [ReferenceError]. *)
Definition unresolvable {A} (ident : string) : Handler A :=
  mthrow (ReferenceError ident).

(** What the caller of an [async] handler observes: a response, or a rejected
    promise and no response. *)
Inductive Outcome :=
| Responded (r : Response)
| Rejected (e : JsError).

Definition serve (h : Handler Empty_set) (w : World) : Outcome * World :=
  match h w with
  | (Sent r, w') => (Responded r, w')
  | (Thrown e, w') => (Rejected e, w')
  | (Normal a, _) => match a with end
  end.

(** ** MongoDB filters, as the routes build them *)

Module Mongo.

Inductive Value :=
| VBool (b : bool)
| VStr (s : string)
| VNum (n : Z)
| VDate (d : Z)
| VNull.

#[global] Instance Value_eq_dec : EqDecision Value.
Proof. solve_decision. Defined.

(** The condition on one path: a plain value, or an operator object. *)
Inductive Cond :=
| Eq (v : Value)                        (* path: v *)
| Gte (v : Value)                       (* path: { $gte: v } *)
| In (vs : list Value)                  (* path: { $in: vs } *)
| Regex (pattern options : string).     (* path: { $regex, $options } *)

(** A key of the filter object. *)
Inductive Clause :=
| Field (path : string) (c : Cond)
| Or (alternatives : list (string * Cond)).   (* $or: [ { path: c }, ... ] *)

(** The filter object; all its keys must hold. *)
Definition Query := list Clause.

Inductive Sort := DateAsc | DateDesc.   (* { date: 1 }, { date: -1 } *)

Definition field (path : string) (t : Tournament.doc) : Value :=
  if String.eqb path "name" then VStr (Tournament.name t)
  else if String.eqb path "date" then VDate (Tournament.date t)
  else if String.eqb path "location" then VStr (Tournament.location t)
  else if String.eqb path "category" then VStr (Tournament.category t)
  else if String.eqb path "maxParticipants" then VNum (Tournament.maxParticipants t)
  else if String.eqb path "currentParticipants" then VNum (Tournament.currentParticipants t)
  else if String.eqb path "posterImage" then from_option VStr VNull (Tournament.posterImage t)
  else if String.eqb path "listUntil" then VDate (Tournament.listUntil t)
  else if String.eqb path "status" then VStr (Tournament.Status_to_string (Tournament.status t))
  else if String.eqb path "isActive" then VBool (Tournament.isActive t)
  else if String.eqb path "winner" then from_option VStr VNull (Tournament.winner t)
  else if String.eqb path "finalParticipants" then from_option VNum VNull (Tournament.finalParticipants t)
  else VNull.

Section Matching.
Variable regex : string -> string -> string -> bool.

Definition holds (c : Cond) (v : Value) : bool :=
  match c with
  | Eq x => bool_decide (v = x)
  | Gte (VDate x) => match v with VDate d => x <=? d | _ => false end
  | Gte (VNum x) => match v with VNum n => x <=? n | _ => false end
  | Gte _ => false
  | In xs => bool_decide (v ∈ xs)
  | Regex pattern options =>
      match v with VStr s => regex pattern options s | _ => false end
  end.

Definition clauseHolds (t : Tournament.doc) (cl : Clause) : bool :=
  match cl with
  | Field path c => holds c (field path t)
  | Or alternatives =>
      existsb (fun pc => holds pc.2 (field pc.1 t)) alternatives
  end.

Definition matches (q : Query) (t : Tournament.doc) : bool :=
  forallb (clauseHolds t) q.
End Matching.

Definition dateAsc (a b : Tournament.doc) : Prop :=
  Tournament.date a <= Tournament.date b.
Definition dateDesc (a b : Tournament.doc) : Prop :=
  Tournament.date b <= Tournament.date a.

#[global] Instance dateAsc_dec a b : Decision (dateAsc a b).
Proof. unfold dateAsc. apply _. Defined.
#[global] Instance dateDesc_dec a b : Decision (dateDesc a b).
Proof. unfold dateDesc. apply _. Defined.

Definition sortBy (s : Sort) (l : list Tournament.doc) : list Tournament.doc :=
  match s with
  | DateAsc => merge_sort dateAsc l
  | DateDesc => merge_sort dateDesc l
  end.

(** [.limit(n)]: zero asks for no limit. *)
Definition limitTo (n : Z) (l : list Tournament.doc) : list Tournament.doc :=
  if n =? 0 then l else take (Z.to_nat (Z.abs n)) l.

End Mongo.

(** ** The tournament routes *)

(** [req.params.id]: a string that mongoose casts to an ObjectId, or fails to. *)
Inductive IdParam := Malformed | ObjectId (k : Z).

(** [req.body] of the create and update routes, after parsing: the fields
    that [tournamentValidation] requires, and the other schema paths that a
    body may carry. *)
Record Body := {
  b_name : string;
  b_date : Z;
  b_location : string;
  b_category : string;
  b_maxParticipants : Z;
  b_currentParticipants : option Z;
  b_listUntil : Z;
  b_posterImage : option string;
  b_status : option Tournament.Status;
  b_isActive : option bool;
  b_winner : option string;
  b_finalParticipants : option Z;
}.

Record Request := {
  params_id : IdParam;
  body : Body;
  file : option string;     (* req.file.buffer, when a poster was sent *)
}.

(** [req.query] of the admin list; an absent key takes its default. *)
Record AdminQuery := {
  q_page : option Z;
  q_limit : option Z;
  q_search : option string;
  q_status : option string;
  q_category : option string;
}.

(** [Math.ceil(a / b)] on integers, [b] not zero. *)
Definition ceilDiv (a b : Z) : Z := - ((- a) / b).

Module Routes.
Section WithEnv.
Context (env : Env).

Import Tournament.

(** *** mongoose and Cloudinary calls *)

(** [new Tournament(data).save()]: the schema validators, then the insert
    of the new document. *)
Definition saveNew (t : doc) : Handler doc :=
  fun w =>
    if negb (schemaValid t) then (Thrown ValidationError, w)
    else if saveFails env t then (Thrown MongoError, w)
    else (Normal t, {| db := <[_id t := t]> (db w); blobs := blobs w |}).

(** [doc.save()] on a document that was read from the collection: the
    schema validators, then the write of the modified paths.  mongoose sends
    a write only when a path was assigned a value other than the one read.
    Nothing else writes to the collection while a request runs, so a
    document without a modified path is one that the store holds, as it is,
    under its [_id]: then no write is sent, and none can be refused. *)
Definition save (t : doc) : Handler doc :=
  fun w =>
    if negb (schemaValid t) then (Thrown ValidationError, w)
    else if bool_decide (db w !! _id t = Some t) then (Normal t, w)
    else if saveFails env t then (Thrown MongoError, w)
    else (Normal t, {| db := <[_id t := t]> (db w); blobs := blobs w |}).

(** [Tournament.findById(id)] *)
Definition findById (id : IdParam) : Handler (option doc) :=
  fun w =>
    match id with
    | Malformed => (Thrown CastError, w)
    | ObjectId k =>
        if findFails env then (Thrown MongoError, w)
        else (Normal (db w !! k), w)
    end.

Definition stored (w : World) : list doc := (map_to_list (db w)).*2.

Definition matching (q : Mongo.Query) (w : World) : list doc :=
  List.filter (Mongo.matches (regexTest env) q) (stored w).

(** [Tournament.find(q).sort(s).limit(limit).skip(skip)]; MongoDB skips
    before it limits, and rejects a negative skip. *)
Definition find (q : Mongo.Query) (s : Mongo.Sort) (skip limit : Z) : Handler (list doc) :=
  fun w =>
    if findFails env then (Thrown MongoError, w)
    else if skip <? 0 then (Thrown MongoError, w)
    else (Normal (Mongo.limitTo limit (drop (Z.to_nat skip) (Mongo.sortBy s (matching q w)))), w).

(** [Tournament.countDocuments(q)] *)
Definition countDocuments (q : Mongo.Query) : Handler Z :=
  fun w =>
    if findFails env then (Thrown MongoError, w)
    else (Normal (Z.of_nat (List.length (matching q w))), w).

(** [uploadToCloudinary(buffer, folder, publicId)] *)
Definition uploadToCloudinary (buffer : string) : Handler Cloudinary.UploadResult :=
  fun w =>
    match uploadResult env with
    | None => (Thrown CloudinaryError, w)
    | Some r =>
        (Normal r, {| db := db w; blobs := {[Cloudinary.public_id r]} ∪ blobs w |})
    end.

(** [deleteFromCloudinary(publicId)] *)
Definition deleteFromCloudinary (publicId : string) : Handler unit :=
  fun w =>
    if destroyFails env publicId then (Thrown CloudinaryError, w)
    else (Normal (), {| db := db w; blobs := blobs w ∖ {[publicId]} |}).

(** [methods.updateStatus]: assign the status, [return this.save()]. *)
Definition updateStatus (t : doc) : Handler doc :=
  save (assignStatus (clock env) t).

(** [for (let tournament of tournaments) await tournament.updateStatus()] *)
Fixpoint updateStatuses (tournaments : list doc) : Handler (list doc) :=
  match tournaments with
  | [] => mret []
  | tournament :: rest =>
      tournament' ← updateStatus tournament;
      rest' ← updateStatuses rest;
      mret (tournament' :: rest')
  end.

(** *** GET /api/tournaments *)

Definition publicFilter : Mongo.Query :=
  [ Mongo.Field "isActive" (Mongo.Eq (Mongo.VBool true));
    Mongo.Field "listUntil" (Mongo.Gte (Mongo.VDate (now (clock env))));
    Mongo.Field "status" (Mongo.In [Mongo.VStr "upcoming"; Mongo.VStr "ongoing"]) ].

Definition listPublic : Handler Empty_set :=
  try_catch
    (tournaments ← find publicFilter Mongo.DateAsc 0 0;
     tournaments ← updateStatuses tournaments;
     json 200 true "" (Docs tournaments))
    (fun error =>
       json 500 false "Server error while fetching tournaments" NoData).

(** *** GET /api/tournaments/admin *)

(** [let query = {}; if (search) ...; if (status !== 'all') ...;
    if (category !== 'all') ...] *)
Definition buildQuery (search status category : string) : Mongo.Query :=
 ((if JsString.truthy search
   then [ Mongo.Or [ ("name", Mongo.Regex search "i");
                     ("location", Mongo.Regex search "i");
                     ("category", Mongo.Regex search "i") ] ]
   else [])
  ++ (if negb (String.eqb status "all")
      then [ if String.eqb status "active"
             then Mongo.Field "isActive" (Mongo.Eq (Mongo.VBool true))
             else if String.eqb status "inactive"
             then Mongo.Field "isActive" (Mongo.Eq (Mongo.VBool false))
             else Mongo.Field "status" (Mongo.Eq (Mongo.VStr status)) ]
      else [])
  ++ (if negb (String.eqb category "all")
      then [ Mongo.Field "category" (Mongo.Eq (Mongo.VStr category)) ]
      else []))%list.

Definition listAdmin (q : AdminQuery) : Handler Empty_set :=
  try_catch
    (let page := default 1 (q_page q) in
     let limit := default 10 (q_limit q) in
     let search := default "" (q_search q) in
     let status := default "all" (q_status q) in
     let category := default "all" (q_category q) in
     let query := buildQuery search status category in
     tournaments ← find query Mongo.DateDesc ((page - 1) * limit) (limit * 1);
     total ← countDocuments query;
     json 200 true "" (Page total (ceilDiv total limit) page tournaments))
    (fun error =>
       json 500 false "Server error while fetching tournaments" NoData).

(** *** GET /api/tournaments/:id *)

Definition getOne (id : IdParam) : Handler Empty_set :=
  try_catch
    (found ← findById id;
     match found with
     | None => json 404 false "Tournament not found" NoData
     | Some tournament =>
         tournament ← updateStatus tournament;
         json 200 true "" (Doc tournament)
     end)
    (fun error =>
       if bool_decide (error = CastError)
       then json 400 false "Invalid tournament ID" NoData
       else json 500 false "Server error while fetching tournament" NoData).

(** *** The validation chain of create and update *)

(** [tournamentValidation] on the modelled fields; [true] when
    [validationResult(req)] is empty. *)
Definition tournamentValidation (b : Body) : bool :=
  let name := JsString.trim (b_name b) in
  let location := JsString.trim (b_location b) in
  (1 <=? JsString.length name) && (JsString.length name <=? 150)
  && (1 <=? JsString.length location) && (JsString.length location <=? 200)
  && (1 <=? b_maxParticipants b) && (b_maxParticipants b <=? 1000)
  && bool_decide (b_category b ∈ categories)
  && match b_currentParticipants b with
     | Some n => 0 <=? n
     | None => true
     end.

(** The sanitizers of the chain ([.trim()]) rewrite [req.body]. *)
Definition sanitized (b : Body) : Body :=
  {| b_name := JsString.trim (b_name b); b_date := b_date b;
     b_location := JsString.trim (b_location b); b_category := b_category b;
     b_maxParticipants := b_maxParticipants b;
     b_currentParticipants := b_currentParticipants b;
     b_listUntil := b_listUntil b; b_posterImage := b_posterImage b;
     b_status := b_status b; b_isActive := b_isActive b;
     b_winner := b_winner b; b_finalParticipants := b_finalParticipants b |}.

(** [data.posterImage = url] *)
Definition with_posterImage (url : string) (b : Body) : Body :=
  {| b_name := b_name b; b_date := b_date b;
     b_location := b_location b; b_category := b_category b;
     b_maxParticipants := b_maxParticipants b;
     b_currentParticipants := b_currentParticipants b;
     b_listUntil := b_listUntil b; b_posterImage := Some url;
     b_status := b_status b; b_isActive := b_isActive b;
     b_winner := b_winner b; b_finalParticipants := b_finalParticipants b |}.

(** [new Tournament(data)]: the schema defaults fill the absent paths and
    the [trim] setters run. *)
Definition newTournament (data : Body) : doc :=
  {| _id := newObjectId env;
     name := JsString.trim (b_name data);
     date := b_date data;
     location := JsString.trim (b_location data);
     category := JsString.trim (b_category data);
     maxParticipants := b_maxParticipants data;
     currentParticipants := default 0 (b_currentParticipants data);
     posterImage := b_posterImage data;
     listUntil := b_listUntil data;
     status := default upcoming (b_status data);
     isActive := default true (b_isActive data);
     winner := JsString.trim <$> b_winner data;
     finalParticipants := b_finalParticipants data |}.

(** [Object.assign(tournament, data)]: every path present in the body is
    set, through its setter. *)
Definition assign (tournament : doc) (data : Body) : doc :=
  {| _id := _id tournament;
     name := JsString.trim (b_name data);
     date := b_date data;
     location := JsString.trim (b_location data);
     category := JsString.trim (b_category data);
     maxParticipants := b_maxParticipants data;
     currentParticipants :=
       default (currentParticipants tournament) (b_currentParticipants data);
     posterImage :=
       match b_posterImage data with
       | Some url => Some url
       | None => posterImage tournament
       end;
     listUntil := b_listUntil data;
     status := default (status tournament) (b_status data);
     isActive := default (isActive tournament) (b_isActive data);
     winner :=
       match b_winner data with
       | Some w => Some (JsString.trim w)
       | None => winner tournament
       end;
     finalParticipants :=
       match b_finalParticipants data with
       | Some n => Some n
       | None => finalParticipants tournament
       end |}.

(** *** POST /api/tournaments

    [tournamentData] and [cloudinaryResult] are declared inside the [try]
    block.  The [catch] block is another block: [cloudinaryResult] is not
    in scope there, and no enclosing scope declares it. *)
Definition create (req : Request) : Handler Empty_set :=
  try_catch
    (if negb (tournamentValidation (body req))
     then json 400 false "Validation failed" NoData
     else
       let tournamentData := sanitized (body req) in
       '(tournamentData, cloudinaryResult) ←
         match file req with
         | Some buffer =>
             try_catch
               (cloudinaryResult ← uploadToCloudinary buffer;
                mret (with_posterImage (Cloudinary.secure_url cloudinaryResult) tournamentData,
                      Some cloudinaryResult))
               (fun uploadError =>
                  json 500 false "Failed to upload poster to cloud storage" NoData)
         | None => mret (tournamentData, None)
         end;
       tournament ← saveNew (newTournament tournamentData);
       json 201 true "Tournament created successfully" (Doc tournament))
    (fun error =>
       cloudinaryResult ← unresolvable "cloudinaryResult";
       match cloudinaryResult with
       | Some r =>
           try_catch (deleteFromCloudinary (Cloudinary.public_id r))
                     (fun cleanupError => mret ())
       | None => mret ()
       end;;
       json 500 false "Server error while creating tournament" NoData).

(** *** PUT /api/tournaments/:id

    [cloudinaryResult] is again declared inside the [try] block and read in
    the [catch] block; the [catch] block also names [fs], which this module
    never requires. *)
Definition update (req : Request) : Handler Empty_set :=
  try_catch
    (if negb (tournamentValidation (body req))
     then json 400 false "Validation failed" NoData
     else
       found ← findById (params_id req);
       match found with
       | None => json 404 false "Tournament not found" NoData
       | Some tournament =>
           let updateData := sanitized (body req) in
           '(updateData, cloudinaryResult, oldImagePublicId) ←
             match file req with
             | Some buffer =>
                 try_catch
                   (cloudinaryResult ← uploadToCloudinary buffer;
                    let updateData :=
                      with_posterImage (Cloudinary.secure_url cloudinaryResult) updateData in
                    let oldImagePublicId :=
                      match posterImage tournament with
                      | Some url =>
                          if JsString.truthy url
                          then Cloudinary.extractPublicId (Some url)
                          else None
                      | None => None
                      end in
                    mret (updateData, Some cloudinaryResult, oldImagePublicId))
                   (fun uploadError =>
                      json 500 false "Failed to upload poster to cloud storage" NoData)
             | None => mret (updateData, None, None)
             end;
           tournament ← save (assign tournament updateData);
           match oldImagePublicId, cloudinaryResult with
           | Some old, Some _ =>
               if JsString.truthy old
               then try_catch (deleteFromCloudinary old) (fun deleteError => mret ())
               else mret ()
           | _, _ => mret ()
           end;;
           json 200 true "Tournament updated successfully" (Doc tournament)
       end)
    (fun error =>
       cloudinaryResult ← unresolvable "cloudinaryResult";
       match cloudinaryResult with
       | Some r =>
           try_catch (deleteFromCloudinary (Cloudinary.public_id r))
                     (fun cleanupError => mret ())
       | None => mret ()
       end;;
       match file req with
       | Some _ => unresolvable "fs"
       | None => mret ()
       end;;
       if bool_decide (error = CastError)
       then json 400 false "Invalid tournament ID" NoData
       else json 500 false "Server error while updating tournament" NoData).

(** *** PATCH /api/tournaments/:id/participants

    [newCount] is [req.body.currentParticipants]: absent, or a number. *)
Definition updateParticipantCount (id : IdParam) (newCount : option Z) : Handler Empty_set :=
  try_catch
    (match newCount with
     | None =>
         json 400 false "Current participants must be a non-negative number" NoData
     | Some n =>
         if n <? 0
         then json 400 false "Current participants must be a non-negative number" NoData
         else
           found ← findById id;
           match found with
           | None => json 404 false "Tournament not found" NoData
           | Some tournament =>
               if n >? maxParticipants tournament
               then json 400 false "Current participants cannot exceed maximum participants" NoData
               else
                 tournament ← save (set_currentParticipants n tournament);
                 json 200 true "Participant count updated successfully" (Doc tournament)
           end
     end)
    (fun error =>
       if bool_decide (error = CastError)
       then json 400 false "Invalid tournament ID" NoData
       else json 500 false "Server error while updating participants" NoData).

(** *** PATCH /api/tournaments/:id/complete

    [winner] is absent or a string, [finalParticipants] absent or a number. *)
Definition complete (id : IdParam) (winner : option string) (finalParticipants : option Z)
  : Handler Empty_set :=
  try_catch
    (match winner with
     | None => json 400 false "Winner name is required" NoData
     | Some winner =>
         if negb (JsString.truthy winner) || negb (JsString.truthy (JsString.trim winner))
         then json 400 false "Winner name is required" NoData
         else
           found ← findById id;
           match found with
           | None => json 404 false "Tournament not found" NoData
           | Some tournament =>
               let tournament := set_status completed tournament in
               let tournament := assign_winner (JsString.trim winner) tournament in
               let tournament :=
                 set_finalParticipants
                   (Some (JsString.orElse finalParticipants (currentParticipants tournament)))
                   tournament in
               tournament ← save tournament;
               json 200 true "Tournament marked as completed" (Doc tournament)
           end
     end)
    (fun error =>
       if bool_decide (error = CastError)
       then json 400 false "Invalid tournament ID" NoData
       else json 500 false "Server error while completing tournament" NoData).

(** *** PATCH /api/tournaments/:id/toggle-status *)
Definition toggleActive (id : IdParam) : Handler Empty_set :=
  try_catch
    (found ← findById id;
     match found with
     | None => json 404 false "Tournament not found" NoData
     | Some tournament =>
         tournament ← save (set_isActive (negb (isActive tournament)) tournament);
         json 200 true
              (if isActive tournament
               then "Tournament activated successfully"
               else "Tournament deactivated successfully")
              (Doc tournament)
     end)
    (fun error =>
       if bool_decide (error = CastError)
       then json 400 false "Invalid tournament ID" NoData
       else json 500 false "Server error while updating tournament status" NoData).

(** *** GET /api/tournaments/past *)

(** What [.select('name date winner finalParticipants prizePool -_id')]
    keeps of a document, on the modelled paths. *)
Record PastEntry := {
  p_name : string;
  p_date : Z;
  p_winner : option string;
  p_finalParticipants : option Z;
}.

Definition project (t : doc) : PastEntry :=
  {| p_name := name t; p_date := date t; p_winner := winner t;
     p_finalParticipants := finalParticipants t |}.

(** [{ isActive: true, status: 'completed', winner: { $ne: null } }] *)
Definition pastFilter (t : doc) : bool :=
  isActive t && bool_decide (status t = completed) && bool_decide (winner t <> None).

(** [Tournament.find(...).sort({ date: -1 }).limit(parseInt(limit)).select(...)],
    with [limit = 6] when the query string has none. *)
Definition findPast (limit : option Z) : Handler (list PastEntry) :=
  fun w =>
    if findFails env then (Thrown MongoError, w)
    else (Normal (project <$> Mongo.limitTo (default 6 limit)
                                (Mongo.sortBy Mongo.DateDesc
                                   (List.filter pastFilter (stored w)))), w).

(** The response of the route: [{ success, count, data }], or the 500 of its
    [catch] block. *)
Record PastResponse := {
  past_code : Z;
  past_success : bool;
  past_message : string;
  past_data : list PastEntry;
}.

Definition listPast (limit : option Z) (w : World) : PastResponse :=
  match findPast limit w with
  | (Normal tournaments, _) =>
      {| past_code := 200; past_success := true; past_message := "";
         past_data := tournaments |}
  | _ =>
      {| past_code := 500; past_success := false;
         past_message := "Server error while fetching past tournaments";
         past_data := [] |}
  end.

(** *** DELETE /api/tournaments/:id *)

(** [Tournament.findByIdAndDelete(id)]; [fails] tells whether the record
    store fails this call. *)
Definition findByIdAndDelete (fails : bool) (id : IdParam) : Handler unit :=
  fun w =>
    match id with
    | Malformed => (Thrown CastError, w)
    | ObjectId k =>
        if fails then (Thrown MongoError, w)
        else (Normal (), {| db := delete k (db w); blobs := blobs w |})
    end.

Definition deleteTournament (deleteFails : bool) (id : IdParam) : Handler Empty_set :=
  try_catch
    (found ← findById id;
     match found with
     | None => json 404 false "Tournament not found" NoData
     | Some tournament =>
         match posterImage tournament with
         | Some url =>
             if JsString.truthy url
             then
               match Cloudinary.extractPublicId (Some url) with
               | Some publicId =>
                   if JsString.truthy publicId
                   then try_catch (deleteFromCloudinary publicId)
                                  (fun deleteError => mret ())
                   else mret ()
               | None => mret ()
               end
             else mret ()
         | None => mret ()
         end;;
         findByIdAndDelete deleteFails id;;
         json 200 true "Tournament deleted successfully" NoData
     end)
    (fun error =>
       if bool_decide (error = CastError)
       then json 400 false "Invalid tournament ID" NoData
       else json 500 false "Server error while deleting tournament" NoData).

End WithEnv.
End Routes.

(** ** The student routes: [handleFormDataArrays] *)

Module StudentForm.
Section Form.

(** The values of a parsed form body, and the array of given elements as
    such a value. *)
Context {V : Type} (arrayOf : list V -> V).

(** [req.body], as the list of its keys with their values, in the order of
    [Object.keys]. *)
Definition FormBody := list (string * V).

Definition isDigit (c : ascii) : bool :=
  let n := nat_of_ascii c in ((48 <=? n) && (n <=? 57))%nat.

(** [parseInt] of a run of decimal digits. *)
Fixpoint digitsValue (acc : N) (s : string) : N :=
  match s with
  | EmptyString => acc
  | String c s' => digitsValue (10 * acc + (N.of_nat (nat_of_ascii c) - 48))%N s'
  end.

(** [key.match(/^achievements\[(\d+)\]$/)], then [parseInt(match[1])]. *)
Definition indexOfKey (key : string) : option N :=
  match Cloudinary.stripPrefix "achievements[" key with
  | Some rest =>
      let '(digits, tail) := Cloudinary.span isDigit rest in
      if JsString.truthy digits && String.eqb tail "]"
      then Some (digitsValue 0 digits)
      else None
  | None => None
  end.

(** The array [achievements] while it is filled: the elements present, with
    their indices, in ascending order of index. *)
Definition SparseArray := list (N * V).

(** The largest array index, [2^32 - 2]; an assignment at a larger number
    sets a property that is no element. *)
Definition maxIndex : N := 4294967294.

(** [achievements[index] = value] *)
Fixpoint setIndex (index : N) (value : V) (a : SparseArray) : SparseArray :=
  match a with
  | [] => [(index, value)]
  | (j, u) :: a' =>
      if (index <? j)%N then (index, value) :: a
      else if (index =? j)%N then (index, value) :: a'
      else (j, u) :: setIndex index value a'
  end.

(** The [forEach] over the keys, on the array. *)
Definition collect (body : FormBody) : SparseArray :=
  fold_left
    (fun a kv =>
       match indexOfKey kv.1 with
       | Some index => if (index <=? maxIndex)%N then setIndex index kv.2 a else a
       | None => a
       end)
    body [].

(** The [forEach] over the keys, on the body: [delete req.body[key]]. *)
Definition withoutIndexed (body : FormBody) : FormBody :=
  List.filter (fun kv => match indexOfKey kv.1 with Some _ => false | None => true end) body.

(** [req.body[key] = value]: in place when the key exists, at the end
    otherwise. *)
Fixpoint setKey (key : string) (value : V) (body : FormBody) : FormBody :=
  match body with
  | [] => [(key, value)]
  | (k, u) :: body' =>
      if String.eqb k key then (key, value) :: body'
      else (k, u) :: setKey key value body'
  end.

(** [handleFormDataArrays]: the body it passes on to [next()].  The values
    of a parsed body are never [undefined], so
    [achievements.filter(item => item !== undefined)] drops the holes only. *)
Definition handleFormDataArrays (body : FormBody) : FormBody :=
  let achievements := collect body in
  let body' := withoutIndexed body in
  match achievements with
  | [] => body'
  | _ :: _ => setKey "achievements" (arrayOf (achievements.*2)) body'
  end.

End Form.
End StudentForm.

(** ** What the properties speak about *)

Module Expected.
Import Tournament.

(** The record that a completion of [t] writes: completed, with the trimmed
    winner and the final count. *)
Definition completedRecord (t : doc) (winner : string) (final : Z) : doc :=
  set_finalParticipants (Some final)
    (set_winner (Some (JsString.trim winner)) (set_status completed t)).

(** The world once a poster is uploaded: the record store as it was, the
    blob store with the new public id. *)
Definition afterUpload (w : World) (uploaded : Cloudinary.UploadResult) : World :=
  {| db := db w; blobs := {[Cloudinary.public_id uploaded]} ∪ blobs w |}.

(** The documents that the query of the public list finds, in its order. *)
Definition listed (env : Env) (w : World) : list doc :=
  Mongo.sortBy Mongo.DateAsc (Routes.matching env (Routes.publicFilter env) w).

(** Every character of [s] satisfies [p]. *)
Fixpoint all (p : ascii -> bool) (s : string) : bool :=
  match s with
  | EmptyString => true
  | String c s' => p c && all p s'
  end.

(** [pattern] occurs in [s] as a substring. *)
Fixpoint occurs (pattern s : string) : bool :=
  match Cloudinary.stripPrefix pattern s with
  | Some _ => true
  | None =>
      match s with
      | EmptyString => false
      | String _ s' => occurs pattern s'
      end
  end.

(** The admin request [q] asked for page [p]. *)
Definition withPage (p : Z) (q : AdminQuery) : AdminQuery :=
  {| q_page := Some p; q_limit := q_limit q; q_search := q_search q;
     q_status := q_status q; q_category := q_category q |}.

(** The items that the admin list answers with; none when it answers without
    a page. *)
Definition adminItems (env : Env) (q : AdminQuery) (w : World) : list Tournament.doc :=
  match serve (Routes.listAdmin env q) w with
  | (Responded {| data := Page _ _ _ items |}, _) => items
  | _ => []
  end.

(** The documents that an admin request selects, newest first. *)
Definition adminSelection (env : Env) (q : AdminQuery) (w : World) : list Tournament.doc :=
  merge_sort Mongo.dateDesc
    (Routes.matching env
       (Routes.buildQuery (default "" (q_search q)) (default "all" (q_status q))
          (default "all" (q_category q))) w).

(** The stored tournaments that are publicly shown as past, newest first. *)
Definition shownAsPast (w : World) : list Tournament.doc :=
  merge_sort Mongo.dateDesc (List.filter Routes.pastFilter (Routes.stored w)).

(** The order of the past list. *)
Definition newerFirst (a b : Routes.PastEntry) : Prop :=
  Routes.p_date b <= Routes.p_date a.

(** What the record store holds once the loop of the public list has saved
    a found tournament: the recomputed document under its own id. *)
Definition written (env : Env) (m : gmap Z Tournament.doc) (t : Tournament.doc)
  : gmap Z Tournament.doc :=
  <[Tournament._id t := Tournament.assignStatus (clock env) t]> m.

(** Two documents agree on every declared path other than [isActive]. *)
Definition sameButActive (a b : doc) : Prop :=
  _id a = _id b /\ name a = name b /\ date a = date b /\
  location a = location b /\ category a = category b /\
  maxParticipants a = maxParticipants b /\
  currentParticipants a = currentParticipants b /\
  posterImage a = posterImage b /\ listUntil a = listUntil b /\
  status a = status b /\ winner a = winner b /\
  finalParticipants a = finalParticipants b.

(** The indices of a sparse array increase. *)
Definition byIndex {V : Type} (a b : N * V) : Prop := (a.1 < b.1)%N.

(** One step of the [forEach] of [handleFormDataArrays], on the array. *)
Definition step {V : Type} (a : list (N * V)) (kv : string * V) : list (N * V) :=
  match StudentForm.indexOfKey kv.1 with
  | Some index =>
      if (index <=? StudentForm.maxIndex)%N then StudentForm.setIndex index kv.2 a else a
  | None => a
  end.

End Expected.

(** Unfold a handler down to its calls on the two stores. *)
Ltac run :=
  unfold serve, try_catch, json, unresolvable,
         mbind, Handler_bind, mret, Handler_ret, mthrow, Handler_throw;
  simpl.

(** ** Concrete tournaments, worlds and requests *)

Module Examples.
Import Tournament.

(** 2024-03-15T00:00:00Z, the time value of a date given without a time. *)
Definition march15 : Z := 1710460800000.

Definition springOpen : doc :=
  {| _id := 1; name := "Spring Open"; date := march15; location := "Main Hall";
     category := "Rapid"; maxParticipants := 10; currentParticipants := 3;
     posterImage := None; listUntil := march15 + 7 * msPerDay;
     status := upcoming; isActive := true; winner := None;
     finalParticipants := None |}.

Definition cancelledCup : doc :=
  {| _id := 2; name := "Winter Cup"; date := march15 - 30 * msPerDay;
     location := "Club Room"; category := "Blitz"; maxParticipants := 16;
     currentParticipants := 0; posterImage := None;
     listUntil := march15 + 7 * msPerDay;
     status := cancelled; isActive := true; winner := None;
     finalParticipants := None |}.

Definition juniorsDay : doc :=
  {| _id := 3; name := "Juniors Day"; date := march15 + 2 * msPerDay;
     location := "Annex"; category := "Youth (Under 18)"; maxParticipants := 20;
     currentParticipants := 20;
     posterImage :=
       Some "https://res.cloudinary.com/demo/image/upload/v1/aspire-chess-academy/posters/poster-1.jpg";
     listUntil := march15 + 9 * msPerDay;
     status := upcoming; isActive := true; winner := None;
     finalParticipants := None |}.

Definition world : World :=
  {| db := <[1 := springOpen]> (<[2 := cancelledCup]> (<[3 := juniorsDay]> ∅));
     blobs := {["aspire-chess-academy/posters/poster-1"]} |}.

(** A tournament whose poster URL ends without a file extension, and a
    world that holds it together with that poster. *)
Definition clubNight : doc :=
  {| _id := 5; name := "Club Night"; date := march15 + 5 * msPerDay;
     location := "Club Room"; category := "Blitz"; maxParticipants := 12;
     currentParticipants := 4;
     posterImage :=
       Some "https://res.cloudinary.com/demo/image/upload/v1/aspire-chess-academy/posters/poster-5";
     listUntil := march15 + 5 * msPerDay;
     status := upcoming; isActive := true; winner := None;
     finalParticipants := None |}.

Definition clubWorld : World :=
  {| db := <[5 := clubNight]> (db world);
     blobs := {["aspire-chess-academy/posters/poster-5"]} ∪ blobs world |}.

(** NO-BREAK SPACE, and a winner's name written with it. *)
Definition nbsp : string := String (ascii_of_nat 160) EmptyString.
Definition paddedBob : string := (nbsp ++ "Bob" ++ nbsp)%string.

(** Clocks in UTC: ten hours into the day of [springOpen], exactly at its
    date, and one day before and after. *)
Definition utc (t : Z) : Clock := {| now := t; tzOffset := 0 |}.
Definition tenOClock : Clock := utc (march15 + 36000000).
Definition midnight : Clock := utc march15.
Definition dayBefore : Clock := utc (march15 - msPerDay).
Definition dayAfter : Clock := utc (march15 + msPerDay).

Definition newPoster : Cloudinary.UploadResult :=
  {| Cloudinary.secure_url :=
       "https://res.cloudinary.com/demo/image/upload/v2/aspire-chess-academy/posters/poster-2.jpg";
     Cloudinary.public_id := "aspire-chess-academy/posters/poster-2" |}.

(** A substring test, ignoring the options: enough to run the admin list
    on patterns without metacharacters. *)
Fixpoint isPrefix (p s : string) : bool :=
  match p, s with
  | EmptyString, _ => true
  | String a p', String b s' => Ascii.eqb a b && isPrefix p' s'
  | String _ _, EmptyString => false
  end.

Fixpoint contains (pattern subject : string) : bool :=
  isPrefix pattern subject ||
  match subject with
  | EmptyString => false
  | String _ subject' => contains pattern subject'
  end.

(** Every call to the stores succeeds; an upload yields [newPoster]. *)
Definition calm (c : Clock) : Env :=
  {| clock := c; findFails := false; saveFails := fun _ => false;
     uploadResult := Some newPoster; destroyFails := fun _ => false;
     newObjectId := 4;
     regexTest := fun pattern _ subject => contains pattern subject |}.

(** The record store refuses every write. *)
Definition writesFail (c : Clock) : Env :=
  {| clock := c; findFails := false; saveFails := fun _ => true;
     uploadResult := Some newPoster; destroyFails := fun _ => false;
     newObjectId := 4;
     regexTest := fun pattern _ subject => contains pattern subject |}.

Definition autumnBody : Body :=
  {| b_name := " Autumn Classic "; b_date := march15 + 200 * msPerDay;
     b_location := "Main Hall"; b_category := "Classical";
     b_maxParticipants := 10; b_currentParticipants := Some 50;
     b_listUntil := march15 + 190 * msPerDay; b_posterImage := None;
     b_status := None; b_isActive := None; b_winner := None;
     b_finalParticipants := None |}.

(** The same body with its name padded by no-break spaces, and with a name
    of no-break spaces only. *)
Definition with_name (n : string) (b : Body) : Body :=
  {| b_name := n; b_date := b_date b; b_location := b_location b;
     b_category := b_category b; b_maxParticipants := b_maxParticipants b;
     b_currentParticipants := b_currentParticipants b;
     b_listUntil := b_listUntil b; b_posterImage := b_posterImage b;
     b_status := b_status b; b_isActive := b_isActive b;
     b_winner := b_winner b; b_finalParticipants := b_finalParticipants b |}.

Definition paddedBody : Body :=
  with_name (nbsp ++ "Autumn Classic" ++ nbsp)%string autumnBody.
Definition blankBody : Body := with_name (nbsp ++ nbsp)%string autumnBody.

(** A create request without a poster: 50 participants for 10 places. *)
Definition overbooked : Request :=
  {| params_id := Malformed; body := autumnBody; file := None |}.

(** A create request with a poster. *)
Definition withPoster : Request :=
  {| params_id := Malformed; body := autumnBody; file := Some "JFIF" |}.

(** An update of [juniorsDay] that replaces its poster. *)
Definition replacePoster : Request :=
  {| params_id := ObjectId 3; body := autumnBody; file := Some "JFIF" |}.

End Examples.

(** * Properties *)

(** ** [trim] *)

Module JsStringFacts.
Import JsString.

Lemma trimStart_idempotent s : trimStart (trimStart s) = trimStart s.
Proof.
  induction s as [|c s IH]; simpl; [reflexivity|].
  destruct (isWhiteSpace c) eqn:Hc; [exact IH|].
  simpl. now rewrite Hc.
Qed.

Lemma trimEnd_idempotent s : trimEnd (trimEnd s) = trimEnd s.
Proof.
  induction s as [|c s IH]; simpl; [reflexivity|].
  destruct (trimEnd s) as [|d r] eqn:Hs.
  - destruct (isWhiteSpace c) eqn:Hc; simpl; [reflexivity|].
    now rewrite Hc.
  - change (trimEnd (String c (String d r)) = String c (String d r)).
    simpl in IH |- *. simpl. destruct (trimEnd r) eqn:Hr.
    + destruct (isWhiteSpace d); [discriminate IH|]. now rewrite IH.
    + now rewrite IH.
Qed.

(** Trimming the end of a string that starts with a visible character
    leaves that character in front. *)
Lemma trimStart_trimEnd s :
  trimStart s = s -> trimStart (trimEnd s) = trimEnd s.
Proof.
  destruct s as [|c s]; [reflexivity|].
  simpl. destruct (isWhiteSpace c) eqn:Hc.
  - intros H. exfalso.
    assert (Hlen : (String.length (trimStart s) <= String.length s)%nat).
    { clear. induction s as [|d s IH]; simpl; [lia|].
      destruct (isWhiteSpace d); simpl; lia. }
    rewrite H in Hlen. simpl in Hlen. lia.
  - intros _. destruct (trimEnd s); simpl; now rewrite Hc.
Qed.

Lemma trim_idempotent s : trim (trim s) = trim s.
Proof.
  unfold trim.
  rewrite (trimStart_trimEnd (trimStart s)) by apply trimStart_idempotent.
  apply trimEnd_idempotent.
Qed.

(** The characters that [trim] removes, by code unit. *)
Lemma isWhiteSpace_spec c :
  isWhiteSpace c = bool_decide (nat_of_ascii c ∈ [9; 10; 11; 12; 13; 32; 160]%nat).
Proof. destruct c as [[] [] [] [] [] [] [] []]; vm_compute; reflexivity. Qed.

Lemma trimEnd_visible c s :
  isWhiteSpace c = false -> trimEnd (String c s) <> EmptyString.
Proof. intros Hc. simpl. destruct (trimEnd s); [rewrite Hc|]; discriminate. Qed.

(** A string is blank, that is trimmed to the empty string, exactly when
    every one of its characters is white space. *)
Lemma trim_blank s :
  trim s = EmptyString <-> Expected.all isWhiteSpace s = true.
Proof.
  unfold trim. induction s as [|c s IH]; simpl; [tauto|].
  destruct (isWhiteSpace c) eqn:Hc; simpl; [exact IH|].
  split; [|discriminate].
  intros H. now apply trimEnd_visible in H.
Qed.

End JsStringFacts.

(** ** The lifecycle: status recomputation *)

Module Lifecycle.
Import Tournament.

Lemma toDateString_day_before tz d :
  toDateString tz (d - msPerDay) = toDateString tz d - 1.
Proof.
  unfold toDateString.
  replace (d - msPerDay + tz) with ((d + tz) + (-1) * msPerDay) by lia.
  rewrite Z.div_add by (unfold msPerDay; lia). lia.
Qed.

(** The three branches of the recomputation, by their guards. *)
Lemma statusAt_cases c d :
  (d < now c -> statusAt c d = completed) /\
  (now c <= d -> toDateString (tzOffset c) (now c) = toDateString (tzOffset c) d ->
     statusAt c d = ongoing) /\
  (now c <= d -> toDateString (tzOffset c) (now c) <> toDateString (tzOffset c) d ->
     statusAt c d = upcoming).
Proof.
  unfold statusAt. repeat split.
  - intros H. destruct (Z.gtb_spec (now c) d); [reflexivity | lia].
  - intros H E. destruct (Z.gtb_spec (now c) d); [lia|].
    now rewrite E, Z.eqb_refl.
  - intros H E. destruct (Z.gtb_spec (now c) d); [lia|].
    destruct (Z.eqb_spec (toDateString (tzOffset c) (now c))
                         (toDateString (tzOffset c) d)); [contradiction | reflexivity].
Qed.

Lemma statusAt_not_cancelled c d : statusAt c d <> cancelled.
Proof.
  unfold statusAt.
  destruct (now c >? d); [discriminate|].
  destruct (_ =? _); discriminate.
Qed.

Lemma status_assignStatus c t : status (assignStatus c t) = statusAt c (date t).
Proof. reflexivity. Qed.

Lemma assignStatus_idempotent c t :
  assignStatus c (assignStatus c t) = assignStatus c t.
Proof. reflexivity. Qed.

(** C1, as the claim states it, fails: a cancelled tournament whose date
    has passed is recomputed to [completed], in the method and through
    GET /api/tournaments/:id, which stores the new status. *)
Lemma cancelled_recomputed_counterexample :
  status Examples.cancelledCup = cancelled /\
  status (assignStatus Examples.midnight Examples.cancelledCup) = completed /\
  (exists w',
     serve (Routes.getOne (Examples.calm Examples.midnight) (ObjectId 2)) Examples.world
     = (Responded {| code := 200; success := true; message := "";
                     data := Doc (set_status completed Examples.cancelledCup) |}, w')
     /\ status <$> (db w' !! 2) = Some completed).
Proof.
  split; [reflexivity|]. split; [reflexivity|].
  eexists. split; vm_compute; reflexivity.
Qed.

(** C1, amended: for every tournament whose status is cancelled and every
    clock value, the recomputation ignores the status held and sets it from
    the clock and the scheduled date alone: completed when now is strictly
    after the date, ongoing when now is not after the date and on its
    calendar day, upcoming otherwise.  The result is never cancelled. *)
Theorem cancelled_recomputed_from_date c t :
  status t = cancelled ->
  (date t < now c -> status (assignStatus c t) = completed) /\
  (now c <= date t ->
   toDateString (tzOffset c) (now c) = toDateString (tzOffset c) (date t) ->
   status (assignStatus c t) = ongoing) /\
  (now c <= date t ->
   toDateString (tzOffset c) (now c) <> toDateString (tzOffset c) (date t) ->
   status (assignStatus c t) = upcoming) /\
  status (assignStatus c t) <> cancelled.
Proof.
  intros _. rewrite status_assignStatus.
  destruct (statusAt_cases c (date t)) as (H1 & H2 & H3).
  repeat split; auto using statusAt_not_cancelled.
Qed.

Lemma cancelled_recomputed_from_date_witness :
  status Examples.cancelledCup = cancelled /\
  status (assignStatus Examples.midnight Examples.cancelledCup) = completed.
Proof.
  split; [reflexivity|].
  apply (cancelled_recomputed_from_date Examples.midnight Examples.cancelledCup);
    [reflexivity | vm_compute; reflexivity].
Defined.

(** C4, as the claim states it, fails: ten hours into the calendar day of
    its date, a tournament that is not cancelled is recomputed to
    [completed], not to [ongoing]. *)
Lemma same_day_after_date_counterexample :
  status Examples.springOpen <> cancelled /\
  toDateString (tzOffset Examples.tenOClock) (now Examples.tenOClock)
  = toDateString (tzOffset Examples.tenOClock) (date Examples.springOpen) /\
  status (assignStatus Examples.tenOClock Examples.springOpen) = completed /\
  status (assignStatus Examples.tenOClock Examples.springOpen) <> ongoing.
Proof.
  split; [discriminate|]. split; [reflexivity|]. split; [reflexivity | discriminate].
Qed.

(** C4, amended: for every tournament that is not cancelled, with scheduled
    date D, the recomputation at clock value now yields completed when now
    is strictly after D; ongoing when now is not after D and on the calendar
    day of D; upcoming otherwise.  In particular the clock one day before D
    yields upcoming, the clock exactly at D yields ongoing, and the clock
    one day after D yields completed. *)
Theorem recomputed_status c t :
  status t <> cancelled ->
  (date t < now c -> status (assignStatus c t) = completed) /\
  (now c <= date t ->
   toDateString (tzOffset c) (now c) = toDateString (tzOffset c) (date t) ->
   status (assignStatus c t) = ongoing) /\
  (now c <= date t ->
   toDateString (tzOffset c) (now c) <> toDateString (tzOffset c) (date t) ->
   status (assignStatus c t) = upcoming) /\
  (now c = date t - msPerDay -> status (assignStatus c t) = upcoming) /\
  (now c = date t -> status (assignStatus c t) = ongoing) /\
  (now c = date t + msPerDay -> status (assignStatus c t) = completed).
Proof.
  intros _. rewrite status_assignStatus.
  destruct (statusAt_cases c (date t)) as (H1 & H2 & H3).
  repeat split; auto.
  - intros E. apply H3; [unfold msPerDay in E; lia|].
    rewrite E, toDateString_day_before. lia.
  - intros E. apply H2; [lia | now rewrite E].
  - intros E. apply H1. unfold msPerDay in E. lia.
Qed.

Lemma recomputed_status_witness :
  status (assignStatus Examples.dayBefore Examples.springOpen) = upcoming /\
  status (assignStatus Examples.midnight Examples.springOpen) = ongoing /\
  status (assignStatus Examples.dayAfter Examples.springOpen) = completed.
Proof.
  assert (H : status Examples.springOpen <> cancelled) by discriminate.
  split; [|split].
  - apply (recomputed_status Examples.dayBefore Examples.springOpen H). reflexivity.
  - apply (recomputed_status Examples.midnight Examples.springOpen H). reflexivity.
  - apply (recomputed_status Examples.dayAfter Examples.springOpen H). reflexivity.
Defined.

End Lifecycle.

(** ** Running handlers *)

Module HandlerFacts.
Import Tournament.

(** The characterisation of the schema validators. *)
Lemma schemaValid_spec t :
  schemaValid t = true <->
  name t <> EmptyString /\ JsString.length (name t) <= 150 /\
  location t <> EmptyString /\ JsString.length (location t) <= 200 /\
  1 <= maxParticipants t /\ 0 <= currentParticipants t /\
  category t ∈ categories.
Proof.
  unfold schemaValid.
  rewrite !andb_true_iff, !Z.leb_le, bool_decide_eq_true.
  assert (Ht : forall s, JsString.truthy s = true <-> s <> EmptyString).
  { intros [|? ?]; simpl; split; congruence. }
  rewrite !Ht. tauto.
Qed.

Lemma schemaValid_set_currentParticipants n t :
  schemaValid t = true -> 0 <= n ->
  schemaValid (set_currentParticipants n t) = true.
Proof. rewrite !schemaValid_spec. simpl. tauto. Qed.

Section WithEnv.
Context (env : Env).

Lemma world_eta w : {| db := db w; blobs := blobs w |} = w.
Proof. now destruct w. Qed.

Lemma saveNew_ok t w :
  schemaValid t = true -> saveFails env t = false ->
  Routes.saveNew env t w
  = (Normal t, {| db := <[_id t := t]> (db w); blobs := blobs w |}).
Proof. intros Hv Hs. unfold Routes.saveNew. now rewrite Hv, Hs. Qed.

Lemma saveNew_throws t w :
  schemaValid t = false \/ saveFails env t = true ->
  exists e, Routes.saveNew env t w = (Thrown e, w).
Proof.
  intros H. unfold Routes.saveNew.
  destruct (schemaValid t); simpl; [|eauto].
  destruct H as [H|H]; [discriminate|]. rewrite H. eauto.
Qed.

(** The insert of a new document either stores exactly the document it was
    given, or throws and leaves the world as it was. *)
Lemma saveNew_cases t w :
  (schemaValid t = true /\ saveFails env t = false /\
   Routes.saveNew env t w
   = (Normal t, {| db := <[_id t := t]> (db w); blobs := blobs w |})) \/
  (exists e, Routes.saveNew env t w = (Thrown e, w)).
Proof.
  destruct (schemaValid t) eqn:Hv; [destruct (saveFails env t) eqn:Hs|].
  - right. apply saveNew_throws. now right.
  - left. auto using saveNew_ok.
  - right. apply saveNew_throws. now left.
Qed.

(** Saving a valid document that the store holds as it is sends nothing:
    the world stays, whatever the store would do with a write. *)
Lemma save_unchanged t w :
  schemaValid t = true -> db w !! _id t = Some t ->
  Routes.save env t w = (Normal t, w).
Proof.
  intros Hv Hst. unfold Routes.save. rewrite Hv. simpl.
  now rewrite bool_decide_eq_true_2.
Qed.

Lemma save_ok t w :
  schemaValid t = true -> saveFails env t = false ->
  Routes.save env t w
  = (Normal t, {| db := <[_id t := t]> (db w); blobs := blobs w |}).
Proof.
  intros Hv Hs. unfold Routes.save. rewrite Hv, Hs. simpl.
  destruct (bool_decide_reflect (db w !! _id t = Some t)) as [Hst|_]; [|reflexivity].
  now rewrite insert_id, world_eta.
Qed.

Lemma save_throws t w :
  schemaValid t = false \/ (saveFails env t = true /\ db w !! _id t <> Some t) ->
  exists e, Routes.save env t w = (Thrown e, w).
Proof.
  intros H. unfold Routes.save.
  destruct (schemaValid t); simpl; [|eauto].
  destruct H as [H|[H Hne]]; [discriminate|].
  rewrite bool_decide_eq_false_2 by assumption. rewrite H. eauto.
Qed.

(** A save either leaves the store holding exactly the document it was
    given, under its id, or throws and leaves the world as it was. *)
Lemma save_cases t w :
  (schemaValid t = true /\
   Routes.save env t w
   = (Normal t, {| db := <[_id t := t]> (db w); blobs := blobs w |})) \/
  (exists e, Routes.save env t w = (Thrown e, w)).
Proof.
  destruct (schemaValid t) eqn:Hv; [|right; apply save_throws; now left].
  destruct (decide (db w !! _id t = Some t)) as [Hst|Hne].
  - left. split; [reflexivity|].
    rewrite save_unchanged by assumption. now rewrite insert_id, world_eta.
  - destruct (saveFails env t) eqn:Hs.
    + right. apply save_throws. now right.
    + left. auto using save_ok.
Qed.

Lemma findById_ok k w :
  findFails env = false ->
  Routes.findById env (ObjectId k) w = (Normal (db w !! k), w).
Proof. intros H. unfold Routes.findById. now rewrite H. Qed.

(** [methods.updateStatus] resolves to the document with the status of
    [assignStatus], which the record store then holds, or rejects and writes
    nothing. *)
Lemma updateStatus_cases t w :
  (Routes.updateStatus env t w
   = (Normal (assignStatus (clock env) t),
      {| db := <[_id t := assignStatus (clock env) t]> (db w); blobs := blobs w |})) \/
  (exists e, Routes.updateStatus env t w = (Thrown e, w)).
Proof.
  unfold Routes.updateStatus.
  destruct (save_cases (assignStatus (clock env) t) w) as [(_ & E)|[e E]]; eauto.
Qed.

(** Recomputing twice in a row leaves the handler where recomputing
    once leaves it: same completion, same world. *)
Lemma updateStatus_twice t w :
  (Routes.updateStatus env t ≫= Routes.updateStatus env) w
  = Routes.updateStatus env t w.
Proof.
  unfold Routes.updateStatus, mbind, Handler_bind.
  destruct (save_cases (assignStatus (clock env) t) w) as [(Hv & E)|[e E]].
  - rewrite E, Lifecycle.assignStatus_idempotent.
    rewrite save_unchanged; [reflexivity | assumption | apply lookup_insert_eq].
  - now rewrite E.
Qed.

End WithEnv.
End HandlerFacts.

Module LifecycleAlgebra.
Import Tournament.

(** C10: status recomputation is idempotent and history-free.  For every
    clock value, recomputing twice yields the status that recomputing once
    yields (as a method on the document, and as the sequence of the two
    calls with their writes), and two tournaments with the same scheduled
    date are recomputed to the same status whatever status each held
    before.  This holds for every tournament, so for the ones that are not
    cancelled. *)
Theorem updateStatus_idempotent_history_free env t t' w :
  date t' = date t ->
  status (assignStatus (clock env) (assignStatus (clock env) t))
  = status (assignStatus (clock env) t) /\
  (Routes.updateStatus env t ≫= Routes.updateStatus env) w
  = Routes.updateStatus env t w /\
  status (assignStatus (clock env) t') = status (assignStatus (clock env) t).
Proof.
  intros Hd. split; [reflexivity|]. split.
  - apply HandlerFacts.updateStatus_twice.
  - rewrite !Lifecycle.status_assignStatus. now rewrite Hd.
Qed.

Lemma updateStatus_idempotent_history_free_witness :
  status (assignStatus Examples.tenOClock (set_status ongoing Examples.springOpen))
  = status (assignStatus Examples.tenOClock Examples.springOpen).
Proof.
  apply (updateStatus_idempotent_history_free
           (Examples.calm Examples.tenOClock)
           Examples.springOpen (set_status ongoing Examples.springOpen)
           Examples.world).
  reflexivity.
Defined.

End LifecycleAlgebra.

(** ** The admin mutations *)

Module Mutations.
Import Tournament.

#[local] Arguments Routes.findById : simpl never.
#[local] Arguments Routes.save : simpl never.
#[local] Arguments Routes.saveNew : simpl never.
#[local] Arguments Routes.find : simpl never.
#[local] Arguments Routes.uploadToCloudinary : simpl never.
#[local] Arguments Routes.deleteFromCloudinary : simpl never.

Section WithEnv.
Context (env : Env) (w : World) (t : doc).

(** [t] is an existing tournament, and the record store answers. *)
Hypothesis Hstored : db w !! _id t = Some t.
Hypothesis Hfind : findFails env = false.

(** C8: for an existing tournament and an integer count, the count patch
    answers with a validation error (status 400) and leaves the world,
    hence the stored record, unchanged when the count is negative or
    above [maxParticipants]; otherwise, the boundary
    [newCount = maxParticipants] included, it sets [currentParticipants]
    to the count and persists the record (a valid record, written by a
    record store that accepts the write). *)
Theorem updateParticipantCount_checked (newCount : Z) :
  (newCount < 0 \/ maxParticipants t < newCount ->
   exists msg,
     serve (Routes.updateParticipantCount env (ObjectId (_id t)) (Some newCount)) w
     = (Responded {| code := 400; success := false; message := msg; data := NoData |}, w)) /\
  (0 <= newCount <= maxParticipants t ->
   schemaValid t = true ->
   saveFails env (set_currentParticipants newCount t) = false ->
   serve (Routes.updateParticipantCount env (ObjectId (_id t)) (Some newCount)) w
   = (Responded {| code := 200; success := true;
                   message := "Participant count updated successfully";
                   data := Doc (set_currentParticipants newCount t) |},
      {| db := <[_id t := set_currentParticipants newCount t]> (db w);
         blobs := blobs w |}) /\
   currentParticipants (set_currentParticipants newCount t) = newCount).
Proof.
  split.
  - intros Hbad. unfold Routes.updateParticipantCount. run.
    destruct (Z.ltb_spec newCount 0) as [Hneg|Hpos]; [eauto|].
    rewrite HandlerFacts.findById_ok, Hstored by assumption.
    destruct (Z.gtb_spec newCount (maxParticipants t)); [eauto | lia].
  - intros [Hlo Hhi] Hvalid Hsave. split; [|reflexivity].
    unfold Routes.updateParticipantCount. run.
    destruct (Z.ltb_spec newCount 0); [lia|].
    rewrite HandlerFacts.findById_ok, Hstored by assumption.
    destruct (Z.gtb_spec newCount (maxParticipants t)); [lia|].
    rewrite HandlerFacts.save_ok
      by auto using HandlerFacts.schemaValid_set_currentParticipants.
    reflexivity.
Qed.

(** C5, amended: for an existing tournament, [complete] answers with a
    validation error (status 400) and leaves the world unchanged when the
    winner is absent, empty or blank; otherwise it sets
    [status = completed], [winner = trim(winner)] and [finalParticipants]
    to the supplied count when one is supplied and is not 0, else to the
    tournament's [currentParticipants], and persists the record. *)
Theorem complete_checked (winner : string) (finalParticipants : option Z) :
  serve (Routes.complete env (ObjectId (_id t)) None finalParticipants) w
  = (Responded {| code := 400; success := false;
                  message := "Winner name is required"; data := NoData |}, w) /\
  (JsString.trim winner = EmptyString ->
   serve (Routes.complete env (ObjectId (_id t)) (Some winner) finalParticipants) w
   = (Responded {| code := 400; success := false;
                   message := "Winner name is required"; data := NoData |}, w)) /\
  (JsString.trim winner <> EmptyString ->
   forall final,
     (finalParticipants = None \/ finalParticipants = Some 0 ->
      final = currentParticipants t) ->
     (forall n, finalParticipants = Some n -> n <> 0 -> final = n) ->
     schemaValid t = true ->
     saveFails env (Expected.completedRecord t winner final) = false ->
     serve (Routes.complete env (ObjectId (_id t)) (Some winner) finalParticipants) w
     = (Responded {| code := 200; success := true;
                     message := "Tournament marked as completed";
                     data := Doc (Expected.completedRecord t winner final) |},
        {| db := <[_id t := Expected.completedRecord t winner final]> (db w);
           blobs := blobs w |})).
Proof.
  split; [reflexivity|]. split.
  - intros Hblank. unfold Routes.complete. run. rewrite Hblank. simpl.
    now rewrite orb_true_r.
  - intros Hname final Hdefault Hgiven Hvalid Hsave.
    unfold Routes.complete. run.
    assert (Hw : JsString.truthy winner = true).
    { destruct winner; [now contradiction Hname | reflexivity]. }
    assert (Htw : JsString.truthy (JsString.trim winner) = true).
    { destruct (JsString.trim winner); [now contradiction Hname | reflexivity]. }
    rewrite Hw, Htw. simpl.
    rewrite HandlerFacts.findById_ok, Hstored by assumption.
    assert (Hfinal : JsString.orElse finalParticipants (currentParticipants t) = final).
    { unfold JsString.orElse. destruct finalParticipants as [n|].
      - destruct (Z.eqb_spec n 0) as [->|Hn].
        + symmetry. apply Hdefault. now right.
        + symmetry. now apply Hgiven.
      - symmetry. apply Hdefault. now left. }
    unfold assign_winner. rewrite JsStringFacts.trim_idempotent.
    simpl. rewrite Hfinal.
    fold (Expected.completedRecord t winner final).
    rewrite HandlerFacts.save_ok; [reflexivity | | assumption].
    revert Hvalid. rewrite !HandlerFacts.schemaValid_spec. simpl. tauto.
Qed.

End WithEnv.

Lemma updateParticipantCount_checked_witness :
  (exists msg,
     serve (Routes.updateParticipantCount (Examples.calm Examples.midnight)
              (ObjectId 1) (Some 11)) Examples.world
     = (Responded {| code := 400; success := false; message := msg; data := NoData |},
        Examples.world)) /\
  db (serve (Routes.updateParticipantCount (Examples.calm Examples.midnight)
               (ObjectId 1) (Some 10)) Examples.world).2 !! 1
  = Some (set_currentParticipants 10 Examples.springOpen).
Proof.
  pose proof (updateParticipantCount_checked
                (Examples.calm Examples.midnight) Examples.world Examples.springOpen
                eq_refl eq_refl) as H.
  split.
  - apply (H 11). right. simpl. lia.
  - destruct (H 10) as [_ H10].
    destruct H10 as [E _]; [simpl; lia | reflexivity | reflexivity |].
    simpl in E. rewrite E. simpl. apply lookup_insert_eq.
Defined.

(** C5, as the claim states it, fails: a supplied [finalParticipants] of 0
    is not stored; the tournament's [currentParticipants], 3, is. *)
Lemma complete_zero_counterexample :
  exists t' w',
    serve (Routes.complete (Examples.calm Examples.midnight)
             (ObjectId 1) (Some "  Alice  ") (Some 0)) Examples.world
    = (Responded {| code := 200; success := true;
                    message := "Tournament marked as completed";
                    data := Doc t' |}, w')
    /\ db w' !! 1 = Some t'
    /\ winner t' = Some "Alice"
    /\ finalParticipants t' = Some 3
    /\ finalParticipants t' <> Some 0.
Proof.
  eexists. eexists. split; [vm_compute; reflexivity|].
  split; [vm_compute; reflexivity|].
  split; [reflexivity|]. split; [reflexivity | discriminate].
Qed.

Lemma complete_checked_witness :
  serve (Routes.complete (Examples.calm Examples.midnight)
           (ObjectId 1) (Some "  Alice  ") (Some 8)) Examples.world
  = (Responded {| code := 200; success := true;
                  message := "Tournament marked as completed";
                  data := Doc (Expected.completedRecord Examples.springOpen "  Alice  " 8) |},
     {| db := <[1 := Expected.completedRecord Examples.springOpen "  Alice  " 8]>
                (db Examples.world);
        blobs := blobs Examples.world |}) /\
  serve (Routes.complete (Examples.calm Examples.midnight)
           (ObjectId 1) (Some (Examples.nbsp ++ " ")%string) (Some 8)) Examples.world
  = (Responded {| code := 400; success := false;
                  message := "Winner name is required"; data := NoData |},
     Examples.world) /\
  winner (Expected.completedRecord Examples.springOpen Examples.paddedBob 8) = Some "Bob".
Proof.
  pose proof (complete_checked (Examples.calm Examples.midnight) Examples.world
                Examples.springOpen eq_refl eq_refl) as H.
  split; [|split; [|reflexivity]].
  - apply (H "  Alice  " (Some 8)).
    + vm_compute. discriminate.
    + intros [E|E]; discriminate E.
    + intros n E _. now inversion E.
    + reflexivity.
    + reflexivity.
  - apply (H (Examples.nbsp ++ " ")%string (Some 8)). reflexivity.
Defined.

End Mutations.

(** ** Create and update: capacity, and the poster protocol *)

Module Coordinator.
Import Tournament.

#[local] Arguments Routes.findById : simpl never.
#[local] Arguments Routes.save : simpl never.
#[local] Arguments Routes.saveNew : simpl never.
#[local] Arguments Routes.uploadToCloudinary : simpl never.
#[local] Arguments Routes.deleteFromCloudinary : simpl never.
#[local] Arguments Routes.tournamentValidation : simpl never.
#[local] Arguments Routes.newTournament : simpl never.
#[local] Arguments Routes.assign : simpl never.
#[local] Arguments Routes.sanitized : simpl never.
#[local] Arguments Routes.with_posterImage : simpl never.
#[local] Arguments Cloudinary.extractPublicId : simpl never.

(** The count patch keeps the count within the capacity: the sibling of
    create and update that does compare the two fields. *)
Lemma updateParticipantCount_within_capacity env id n w r w' t :
  serve (Routes.updateParticipantCount env id (Some n)) w = (Responded r, w') ->
  code r = 200 -> data r = Doc t ->
  0 <= currentParticipants t <= maxParticipants t.
Proof.
  unfold Routes.updateParticipantCount. run.
  destruct (Z.ltb_spec n 0); [intros [= <- <-]; discriminate|].
  destruct (Routes.findById env id w) as [[[t0|]|r0|e] w0] eqn:Hf; simpl.
  - destruct (Z.gtb_spec n (maxParticipants t0)); [intros [= <- <-]; discriminate|].
    destruct (HandlerFacts.save_cases env (set_currentParticipants n t0) w0)
      as [(_ & E)|[e E]]; rewrite E; simpl.
    + intros [= <- <-] _ [= <-]. simpl. lia.
    + destruct (bool_decide _); intros [= <- <-]; discriminate.
  - intros [= <- <-]; discriminate.
  - unfold Routes.findById in Hf. destruct id; [discriminate|].
    destruct (findFails env); discriminate.
  - destruct (bool_decide _); intros [= <- <-]; discriminate.
Qed.

(** Completion and the active-flag toggle write the two counts back as they
    were stored. *)
Lemma complete_toggle_keep_counts env k winner final w r w' t :
  serve (Routes.complete env (ObjectId k) winner final) w = (Responded r, w') \/
  serve (Routes.toggleActive env (ObjectId k)) w = (Responded r, w') ->
  data r = Doc t ->
  exists t0, db w !! k = Some t0 /\
             currentParticipants t = currentParticipants t0 /\
             maxParticipants t = maxParticipants t0.
Proof.
  intros [H|H]; revert H.
  - unfold Routes.complete. run.
    destruct winner as [winner|]; [|intros [= <- <-]; discriminate].
    destruct (negb (JsString.truthy winner) || negb (JsString.truthy (JsString.trim winner)));
      [intros [= <- <-]; discriminate|].
    unfold Routes.findById. destruct (findFails env); simpl;
      [intros [= <- <-]; discriminate|].
    destruct (db w !! k) as [t0|]; simpl; [|intros [= <- <-]; discriminate].
    match goal with |- context [Routes.save env ?d ?w0] =>
      destruct (HandlerFacts.save_cases env d w0) as [(_ & E)|[e E]]; rewrite E
    end; simpl.
    + intros [= <- <-] [= <-]. eauto.
    + destruct (bool_decide _); intros [= <- <-]; discriminate.
  - unfold Routes.toggleActive. run.
    unfold Routes.findById. destruct (findFails env); simpl;
      [intros [= <- <-]; discriminate|].
    destruct (db w !! k) as [t0|]; simpl; [|intros [= <- <-]; discriminate].
    match goal with |- context [Routes.save env ?d ?w0] =>
      destruct (HandlerFacts.save_cases env d w0) as [(_ & E)|[e E]]; rewrite E
    end; simpl.
    + intros [= <- <-] [= <-]. eauto.
    + destruct (bool_decide _); intros [= <- <-]; discriminate.
Qed.

Section PosterProtocol.
Context (env : Env) (req : Request) (w : World).
Context (buffer : string) (uploaded : Cloudinary.UploadResult).

Hypothesis Hvalid : Routes.tournamentValidation (body req) = true.
Hypothesis Hfile : file req = Some buffer.
Hypothesis Hupload : uploadResult env = Some uploaded.

(** Create, when the write fails after the upload: the [catch] block
    throws on [cloudinaryResult] before its cleanup and before its
    response. *)
Lemma create_failed_write :
  let tournament :=
    Routes.newTournament env
      (Routes.with_posterImage (Cloudinary.secure_url uploaded)
         (Routes.sanitized (body req))) in
  schemaValid tournament = false \/ saveFails env tournament = true ->
  serve (Routes.create env req) w
  = (Rejected (ReferenceError "cloudinaryResult"), Expected.afterUpload w uploaded).
Proof.
  intros tournament Hfail. unfold Routes.create. run.
  rewrite Hvalid, Hfile. simpl.
  unfold Routes.uploadToCloudinary. rewrite Hupload. simpl.
  destruct (HandlerFacts.saveNew_throws env tournament (Expected.afterUpload w uploaded) Hfail) as [e E].
  fold (Expected.afterUpload w uploaded). fold tournament. now rewrite E.
Qed.

(** Update, when the write fails after the upload: the same.  The write is
    one that is sent: the update changes the stored document. *)
Lemma update_failed_write k old :
  params_id req = ObjectId k ->
  findFails env = false ->
  db w !! k = Some old ->
  let tournament :=
    Routes.assign old
      (Routes.with_posterImage (Cloudinary.secure_url uploaded)
         (Routes.sanitized (body req))) in
  schemaValid tournament = false \/
  (saveFails env tournament = true /\ db w !! _id old <> Some tournament) ->
  serve (Routes.update env req) w
  = (Rejected (ReferenceError "cloudinaryResult"), Expected.afterUpload w uploaded).
Proof.
  intros Hid Hfind Hold tournament Hfail. unfold Routes.update. run.
  rewrite Hvalid, Hid. simpl.
  rewrite HandlerFacts.findById_ok, Hold, Hfile by assumption. simpl.
  unfold Routes.uploadToCloudinary. rewrite Hupload. simpl.
  destruct (HandlerFacts.save_throws env tournament (Expected.afterUpload w uploaded) Hfail) as [e E].
  fold (Expected.afterUpload w uploaded). fold tournament. now rewrite E.
Qed.

End PosterProtocol.

(** Update touches an old poster only on its last step: a public id that
    leaves the blob store is the one extracted from the poster of the stored
    record, a new poster was uploaded, and the record that references the new
    poster is already written. *)
Lemma update_deletes_old_only_after_write env req w o w' p :
  serve (Routes.update env req) w = (o, w') ->
  p ∈ blobs w -> p ∉ blobs w' ->
  exists k old buffer uploaded t,
    params_id req = ObjectId k /\ db w !! k = Some old /\
    file req = Some buffer /\ uploadResult env = Some uploaded /\
    Cloudinary.extractPublicId (posterImage old) = Some p /\
    o = Responded {| code := 200; success := true;
                     message := "Tournament updated successfully"; data := Doc t |} /\
    db w' !! _id t = Some t /\
    posterImage t = Some (Cloudinary.secure_url uploaded).
Proof.
  unfold Routes.update. run.
  destruct (Routes.tournamentValidation (body req)); simpl;
    [|intros [= <- <-]; contradiction].
  unfold Routes.findById.
  destruct (params_id req) as [|k]; simpl; [intros [= <- <-]; contradiction|].
  destruct (findFails env); simpl; [intros [= <- <-]; contradiction|].
  destruct (db w !! k) as [old|] eqn:Hold; simpl; [|intros [= <- <-]; contradiction].
  destruct (file req) as [buffer|] eqn:Hfile; simpl.
  - unfold Routes.uploadToCloudinary.
    destruct (uploadResult env) as [uploaded|] eqn:Hup; simpl;
      [|intros [= <- <-]; contradiction].
    match goal with |- context [Routes.save env ?d ?w0] =>
      destruct (HandlerFacts.save_cases env d w0) as [(_ & E)|[e E]]; rewrite E
    end; [|intros [= <- <-]; simpl; intros Hp Hnp; exfalso; set_solver].
    assert (Hextract :
              match posterImage old with
              | Some url =>
                  if JsString.truthy url then Cloudinary.extractPublicId (Some url) else None
              | None => None
              end = Cloudinary.extractPublicId (posterImage old)).
    { destruct (posterImage old) as [[|c url]|]; reflexivity. }
    rewrite Hextract.
    destruct (Cloudinary.extractPublicId (posterImage old)) as [oldId|] eqn:Hid;
      [|intros [= <- <-]; simpl; set_solver].
    destruct (JsString.truthy oldId); [|intros [= <- <-]; simpl; set_solver].
    unfold Routes.deleteFromCloudinary.
    destruct (destroyFails env oldId); simpl; intros [= <- <-]; simpl; intros Hp Hnp;
      [set_solver|].
    assert (p = oldId) as -> by (destruct (decide (p = oldId)); [assumption | set_solver]).
    exists k, old, buffer, uploaded. eexists.
    repeat split; try reflexivity; try assumption.
    simpl. apply lookup_insert_eq.
  - match goal with |- context [Routes.save env ?d ?w0] =>
      destruct (HandlerFacts.save_cases env d w0) as [(_ & E)|[e E]]; rewrite E
    end; intros [= <- <-]; simpl; contradiction.
Qed.

(** C2, at the failing inputs: a create request with 50 current
    participants for 10 places passes the validation chain and the schema
    and is stored as it is; a full-field update with the same body stores
    the same counts on an existing tournament. *)
Theorem create_update_exceed_capacity :
  (exists t w',
     serve (Routes.create (Examples.calm Examples.midnight) Examples.overbooked)
           Examples.world
     = (Responded {| code := 201; success := true;
                     message := "Tournament created successfully";
                     data := Doc t |}, w')
     /\ db w' !! _id t = Some t
     /\ currentParticipants t = 50 /\ maxParticipants t = 10
     /\ ~ (0 <= currentParticipants t <= maxParticipants t)) /\
  (exists t w',
     serve (Routes.update (Examples.calm Examples.midnight)
              {| params_id := ObjectId 1; body := Examples.autumnBody; file := None |})
           Examples.world
     = (Responded {| code := 200; success := true;
                     message := "Tournament updated successfully";
                     data := Doc t |}, w')
     /\ db w' !! 1 = Some t
     /\ currentParticipants t = 50 /\ maxParticipants t = 10
     /\ ~ (0 <= currentParticipants t <= maxParticipants t)).
Proof.
  split; eexists; eexists.
  - split; [vm_compute; reflexivity|].
    split; [vm_compute; reflexivity|].
    split; [reflexivity|]. split; [reflexivity|]. simpl. lia.
  - split; [vm_compute; reflexivity|].
    split; [vm_compute; reflexivity|].
    split; [reflexivity|]. split; [reflexivity|]. simpl. lia.
Qed.

(** C6, at the failing input: a create request with a poster, the upload
    succeeding and the write failing.  The handler's promise is rejected
    with a [ReferenceError] on [cloudinaryResult]: no response carries the
    persistence error, and the uploaded poster is still in the blob store. *)
Theorem create_leaves_uploaded_poster :
  exists w',
    serve (Routes.create (Examples.writesFail Examples.midnight) Examples.withPoster)
          Examples.world
    = (Rejected (ReferenceError "cloudinaryResult"), w')
    /\ (Cloudinary.public_id Examples.newPoster ∈ blobs w')
    /\ (Cloudinary.public_id Examples.newPoster ∉ blobs Examples.world)
    /\ db w' = db Examples.world.
Proof.
  eexists. split.
  - apply (create_failed_write (Examples.writesFail Examples.midnight)
             Examples.withPoster Examples.world "JFIF" Examples.newPoster);
      try reflexivity.
    now right.
  - split; [|split]; [set_solver | | reflexivity].
    unfold Examples.world, Examples.newPoster. simpl.
    rewrite elem_of_singleton. discriminate.
Qed.

(** C7, at the failing input: an update that replaces the poster of an
    existing tournament, the upload succeeding and the write failing.  The
    handler's promise is rejected with a [ReferenceError] on
    [cloudinaryResult]: the original failure is not surfaced and the newly
    uploaded poster is still in the blob store.  The stored record and the
    blob of the old poster are as they were. *)
Theorem update_leaves_uploaded_poster :
  exists w',
    serve (Routes.update (Examples.writesFail Examples.midnight) Examples.replacePoster)
          Examples.world
    = (Rejected (ReferenceError "cloudinaryResult"), w')
    /\ (Cloudinary.public_id Examples.newPoster ∈ blobs w')
    /\ (Cloudinary.public_id Examples.newPoster ∉ blobs Examples.world)
    /\ db w' !! 3 = Some Examples.juniorsDay
    /\ ("aspire-chess-academy/posters/poster-1" ∈ blobs w').
Proof.
  eexists. split.
  - apply (update_failed_write (Examples.writesFail Examples.midnight)
             Examples.replacePoster Examples.world "JFIF" Examples.newPoster
             eq_refl eq_refl eq_refl 3 Examples.juniorsDay);
      try reflexivity.
    now right.
  - split; [|split; [|split]]; [set_solver | | reflexivity | set_solver].
    unfold Examples.world, Examples.newPoster. simpl.
    rewrite elem_of_singleton. discriminate.
Qed.

End Coordinator.

(** ** The public list *)

Module PublicList.
Import Tournament.

#[local] Arguments Routes.save : simpl never.
#[local] Arguments Routes.saveNew : simpl never.

#[global] Instance dateAsc_total : Total Mongo.dateAsc.
Proof. intros a b. unfold Mongo.dateAsc. lia. Qed.

#[global] Instance dateDesc_total : Total Mongo.dateDesc.
Proof. intros a b. unfold Mongo.dateDesc. lia. Qed.

(** The stored status of a document, as the filter reads it. *)
Lemma status_in_filter s :
  bool_decide (Mongo.VStr (Status_to_string s)
               ∈ [Mongo.VStr "upcoming"; Mongo.VStr "ongoing"]) = true
  <-> s = upcoming \/ s = ongoing.
Proof.
  destruct s; (split; [vm_compute; intros H; first [now left | now right | discriminate]
                      | intros [H|H]; first [discriminate H | vm_compute; reflexivity]]).
Qed.

Section WithEnv.
Context (env : Env).

(** The filter of the public list is the "publicly listed" predicate, on
    the stored status. *)
Lemma matches_publicFilter t :
  Mongo.matches (regexTest env) (Routes.publicFilter env) t = true <->
  isActive t = true /\ now (clock env) <= listUntil t /\
  (status t = upcoming \/ status t = ongoing).
Proof.
  unfold Mongo.matches, Routes.publicFilter.
  cbn [forallb Mongo.clauseHolds].
  change (Mongo.field "isActive" t) with (Mongo.VBool (isActive t)).
  change (Mongo.field "listUntil" t) with (Mongo.VDate (listUntil t)).
  change (Mongo.field "status" t) with (Mongo.VStr (Status_to_string (status t))).
  cbn [Mongo.holds].
  rewrite !andb_true_iff, status_in_filter, Z.leb_le, bool_decide_eq_true.
  split.
  - intros ([= ->] & ? & ? & _). auto.
  - intros (-> & ? & ?). auto.
Qed.

(** The loop over the found tournaments: when it runs to its end, every
    tournament carries its recomputed status. *)
Lemma updateStatuses_normal l : forall w l' w',
  Routes.updateStatuses env l w = (Normal l', w') ->
  l' = assignStatus (clock env) <$> l.
Proof.
  induction l as [|t l IH]; intros w l' w'; simpl.
  - unfold mret, Handler_ret. now intros [= <- <-].
  - unfold mbind, Handler_bind, Routes.updateStatus.
    destruct (HandlerFacts.save_cases env (assignStatus (clock env) t) w)
      as [(_ & E)|[e E]]; rewrite E; [|discriminate].
    destruct (Routes.updateStatuses env l _) as [[l1|r|e] w1] eqn:El;
      try discriminate.
    unfold mret, Handler_ret. intros [= <- <-].
    f_equal. eapply IH, El.
Qed.

Lemma updateStatuses_never_sends l : forall w r w',
  Routes.updateStatuses env l w <> (Sent r, w').
Proof.
  induction l as [|t l IH]; intros w r w'; simpl.
  - discriminate.
  - unfold mbind, Handler_bind, Routes.updateStatus.
    destruct (HandlerFacts.save_cases env (assignStatus (clock env) t) w)
      as [(_ & E)|[e E]]; rewrite E; [|discriminate].
    destruct (Routes.updateStatuses env l _) as [[l1|r1|e] w1] eqn:El;
      try discriminate.
    now apply IH in El.
Qed.

Lemma listed_sorted w : Sorted Mongo.dateAsc (Expected.listed env w).
Proof. apply Sorted_merge_sort, _. Qed.

Lemma elem_of_listed w t :
  t ∈ Expected.listed env w <->
  t ∈ Routes.stored w /\ isActive t = true /\ now (clock env) <= listUntil t /\
  (status t = upcoming \/ status t = ongoing).
Proof.
  unfold Expected.listed, Mongo.sortBy, Routes.matching.
  rewrite merge_sort_Permutation, !list_elem_of_In, List.filter_In.
  now rewrite matches_publicFilter.
Qed.

(** What the handler answers, in each of its runs. *)
Lemma listPublic_cases w :
  (exists w',
     serve (Routes.listPublic env) w
     = (Responded {| code := 200; success := true; message := "";
                     data := Docs (assignStatus (clock env) <$> Expected.listed env w) |}, w')) \/
  (exists w',
     serve (Routes.listPublic env) w
     = (Responded {| code := 500; success := false;
                     message := "Server error while fetching tournaments";
                     data := NoData |}, w')).
Proof.
  unfold Routes.listPublic, serve, try_catch, json, mbind, Handler_bind, Routes.find.
  destruct (findFails env); [right; eauto|].
  change (Mongo.limitTo 0 (drop (Z.to_nat 0)
            (Mongo.sortBy Mongo.DateAsc
               (Routes.matching env (Routes.publicFilter env) w))))
    with (Expected.listed env w).
  simpl.
  destruct (Routes.updateStatuses env (Expected.listed env w) w) as [[l'|r|e] w'] eqn:E.
  - apply updateStatuses_normal in E. subst l'. left; eauto.
  - now apply updateStatuses_never_sends in E.
  - right; eauto.
Qed.

(** With a record store that answers and accepts the writes, and valid
    stored records, the loop runs to its end. *)
Lemma updateStatuses_ok l : forall w,
  Forall (fun t => schemaValid t = true /\
                   saveFails env (assignStatus (clock env) t) = false) l ->
  exists w', Routes.updateStatuses env l w
             = (Normal (assignStatus (clock env) <$> l), w').
Proof.
  induction l as [|t l IH]; intros w Hl; simpl.
  - eexists. reflexivity.
  - inversion Hl as [|? ? [Hv Hs] Hl']; subst.
    unfold mbind, Handler_bind, Routes.updateStatus.
    rewrite HandlerFacts.save_ok by assumption.
    destruct (IH {| db := <[_id (assignStatus (clock env) t) := assignStatus (clock env) t]> (db w);
                    blobs := blobs w |} Hl') as [w' E].
    rewrite E. eexists. reflexivity.
Qed.

(** X25: what the public list answers.  For every store state and clock
    value the route answers (with a server error when a store call fails,
    with the list when none fails and the stored records are valid).  Every
    document in the list is a stored document that the filter selected
    ([isActive = true], [listUntil >= now], stored status upcoming or
    ongoing), carrying the status that the loop recomputed after the query:
    upcoming, ongoing or completed, never cancelled.  The list is in
    ascending order of date. *)
Theorem listPublic_listed w :
  (exists r w', serve (Routes.listPublic env) w = (Responded r, w')) /\
  (findFails env = false ->
   Forall (fun t => schemaValid t = true /\
                    saveFails env (assignStatus (clock env) t) = false)
          (Routes.stored w) ->
   exists ts w',
     serve (Routes.listPublic env) w
     = (Responded {| code := 200; success := true; message := ""; data := Docs ts |}, w')) /\
  (forall r w' ts,
     serve (Routes.listPublic env) w = (Responded r, w') ->
     data r = Docs ts ->
     Forall (fun t =>
               isActive t = true /\ now (clock env) <= listUntil t /\
               (status t = upcoming \/ status t = ongoing \/ status t = completed) /\
               status t <> cancelled /\
               exists t0, t0 ∈ Routes.stored w /\
                          (status t0 = upcoming \/ status t0 = ongoing) /\
                          t = assignStatus (clock env) t0) ts
     /\ Sorted Mongo.dateAsc ts).
Proof.
  split; [|split].
  - destruct (listPublic_cases w) as [[w1 E]|[w1 E]]; eauto.
  - intros Hfind Hok.
    unfold Routes.listPublic, serve, try_catch, json, mbind, Handler_bind, Routes.find.
    rewrite Hfind.
    change (Mongo.limitTo 0 (drop (Z.to_nat 0)
              (Mongo.sortBy Mongo.DateAsc
                 (Routes.matching env (Routes.publicFilter env) w))))
      with (Expected.listed env w).
    simpl.
    destruct (updateStatuses_ok (Expected.listed env w) w) as [w' E].
    { rewrite Forall_forall in Hok |- *. intros t Ht.
      apply Hok. now apply elem_of_listed in Ht. }
    rewrite E. eauto.
  - intros r w' ts Hrun Hdata.
    destruct (listPublic_cases w) as [[w1 E]|[w1 E]];
      rewrite E in Hrun; injection Hrun as <- <-; simpl in Hdata; [|discriminate].
    injection Hdata as <-. split.
    + rewrite Forall_fmap, Forall_forall. intros t0 Ht0. simpl.
      apply elem_of_listed in Ht0 as (Hst & Hact & Hlist & Hstatus).
      pose proof (Lifecycle.statusAt_not_cancelled (clock env) (date t0)) as Hnc.
      repeat split; auto.
      * destruct (statusAt (clock env) (date t0)); tauto.
      * eauto.
    + apply (Sorted_fmap (assignStatus (clock env)) Mongo.dateAsc Mongo.dateAsc);
        [|apply listed_sorted].
      intros x y Hxy. exact Hxy.
Qed.

End WithEnv.

(** C3, at the failing input: the store of the examples, read ten hours
    into the day of the Spring Open.  The Spring Open is stored as
    upcoming, active and still listed, so the filter on
    [status in (upcoming, ongoing)] selects it; the loop then recomputes its
    status, and the route returns it with the status [completed]: the list
    holds a tournament that is not publicly listed.  The recomputed status
    is stored, so the same request, sent again at the same clock, no longer
    returns the Spring Open and returns upcoming and ongoing tournaments
    only. *)
Theorem listPublic_returns_completed :
  exists ts w',
    serve (Routes.listPublic (Examples.calm Examples.tenOClock)) Examples.world
    = (Responded {| code := 200; success := true; message := ""; data := Docs ts |}, w')
    /\ db Examples.world !! 1 = Some Examples.springOpen
    /\ status Examples.springOpen = upcoming
    /\ (set_status completed Examples.springOpen ∈ ts)
    /\ ~ Forall (fun t => status t = upcoming \/ status t = ongoing) ts
    /\ db w' !! 1 = Some (set_status completed Examples.springOpen)
    /\ (exists ts2 w2,
          serve (Routes.listPublic (Examples.calm Examples.tenOClock)) w'
          = (Responded {| code := 200; success := true; message := "";
                          data := Docs ts2 |}, w2)
          /\ Forall (fun t => status t = upcoming \/ status t = ongoing) ts2
          /\ Forall (fun t => _id t <> 1) ts2).
Proof.
  eexists. eexists. split; [vm_compute; reflexivity|].
  split; [reflexivity|]. split; [reflexivity|].
  split; [apply list_elem_of_here|].
  split; [intros H; inversion H as [|? ? [Hs|Hs] _]; discriminate Hs|].
  split; [vm_compute; reflexivity|].
  eexists. eexists. split; [vm_compute; reflexivity|].
  split; repeat constructor; discriminate.
Qed.

Lemma listPublic_listed_witness :
  exists ts w',
    serve (Routes.listPublic (Examples.calm Examples.tenOClock)) Examples.world
    = (Responded {| code := 200; success := true; message := ""; data := Docs ts |}, w')
    /\ Forall (fun t => isActive t = true /\ status t <> cancelled) ts
    /\ Sorted Mongo.dateAsc ts.
Proof.
  destruct (listPublic_listed (Examples.calm Examples.tenOClock) Examples.world)
    as (_ & Hruns & Hlisted).
  destruct Hruns as (ts & w' & E); [reflexivity | vm_compute; repeat constructor|].
  exists ts, w'. split; [exact E|].
  destruct (Hlisted _ _ ts E eq_refl) as [HF HS]. split; [|exact HS].
  eapply Forall_impl; [exact HF|]. simpl. tauto.
Defined.

End PublicList.

(** ** The admin list *)

Module AdminList.
Import Tournament.

(** [ceilDiv] is the ceiling of the quotient: the least number of pages of
    [b] items that hold [a] items. *)
Lemma ceilDiv_spec a b :
  0 < b -> b * (ceilDiv a b - 1) < a <= b * ceilDiv a b.
Proof.
  intros Hb. unfold ceilDiv.
  pose proof (Z.mul_div_le (- a) b Hb).
  pose proof (Z.mul_succ_div_gt (- a) b Hb).
  lia.
Qed.

Lemma and_iff_both (A B C D : Prop) :
  (A <-> C) -> (B <-> D) -> (A /\ B <-> C /\ D).
Proof. tauto. Qed.

Section WithEnv.
Context (env : Env).

(** What the built filter selects. *)
Lemma matches_buildQuery search status category t :
  Mongo.matches (regexTest env) (Routes.buildQuery search status category) t = true <->
  (search = EmptyString \/
   regexTest env search "i" (name t) = true \/
   regexTest env search "i" (location t) = true \/
   regexTest env search "i" (Tournament.category t) = true) /\
  (status = "all" \/
   (status = "active" /\ isActive t = true) \/
   (status = "inactive" /\ isActive t = false) \/
   (status <> "active" /\ status <> "inactive" /\
    Status_to_string (Tournament.status t) = status)) /\
  (category = "all" \/ Tournament.category t = category).
Proof.
  unfold Mongo.matches, Routes.buildQuery.
  rewrite !forallb_app, !andb_true_iff.
  assert (Hactive : Mongo.field "isActive" t = Mongo.VBool (isActive t))
    by reflexivity.
  assert (Hstatus : Mongo.field "status" t
                    = Mongo.VStr (Status_to_string (Tournament.status t)))
    by reflexivity.
  assert (Hcategory : Mongo.field "category" t = Mongo.VStr (Tournament.category t))
    by reflexivity.
  apply and_iff_both; [|apply and_iff_both].
  - destruct search as [|c s]; simpl; [tauto|].
    rewrite andb_true_r, orb_false_r, !orb_true_iff.
    split; [intros H; right; tauto | intros [H|H]; [discriminate | tauto]].
  - destruct (String.eqb_spec status "all") as [->|Hall]; simpl; [tauto|].
    rewrite andb_true_r.
    destruct (String.eqb_spec status "active") as [->|Hact]; simpl.
    { rewrite Hactive, bool_decide_eq_true. split.
      - intros [= ->]. right. left. auto.
      - intros [H|[[_ ->]|[[H _]|[H _]]]]; [discriminate | reflexivity
                                            | discriminate | contradiction]. }
    destruct (String.eqb_spec status "inactive") as [->|Hin]; simpl.
    { rewrite Hactive, bool_decide_eq_true. split.
      - intros [= ->]. right. right. left. auto.
      - intros [H|[[H _]|[[_ ->]|[_ [H _]]]]]; [discriminate | discriminate
                                               | reflexivity | contradiction]. }
    rewrite Hstatus, bool_decide_eq_true. split.
    + intros [= H]. right. right. right. auto.
    + intros [H|[[H _]|[[H _]|(_ & _ & H)]]]; try contradiction. now rewrite H.
  - destruct (String.eqb_spec category "all") as [->|Hall]; simpl; [tauto|].
    rewrite andb_true_r, Hcategory, bool_decide_eq_true. split.
    + intros [= H]. auto.
    + intros [H|H]; [contradiction | now rewrite H].
Qed.

(** C9: for every admin list request with a page and a limit of at
    least 1, answered by a record store that can be read, the built
    filter selects on the [isActive] flag when the status is 'active'
    (true) or 'inactive' (false) and on the [status] field itself for any
    other status than 'all'; a search pattern is matched with the option
    [i] (case-insensitive) against name, location and category, one match
    being enough; and the response reports the total count, its ceiling
    quotient by the limit as [totalPages], and as items of page [page]
    the [limit] documents after the first [(page - 1) * limit], in
    descending date order. *)
Theorem listAdmin_filter_and_pages (q : AdminQuery) (w : World) :
  let page := default 1 (q_page q) in
  let limit := default 10 (q_limit q) in
  let search := default "" (q_search q) in
  let status := default "all" (q_status q) in
  let category := default "all" (q_category q) in
  let selected := Routes.matching env (Routes.buildQuery search status category) w in
  1 <= page -> 1 <= limit -> findFails env = false ->
  (forall t, t ∈ selected <->
     t ∈ Routes.stored w /\
     (search = "" \/
      regexTest env search "i" (name t) = true \/
      regexTest env search "i" (location t) = true \/
      regexTest env search "i" (Tournament.category t) = true) /\
     (status = "all" \/
      (status = "active" /\ isActive t = true) \/
      (status = "inactive" /\ isActive t = false) \/
      (status <> "active" /\ status <> "inactive" /\
       Status_to_string (Tournament.status t) = status)) /\
     (category = "all" \/ Tournament.category t = category)) /\
  (let totalCount := Z.of_nat (length selected) in
   let totalPages := ceilDiv totalCount limit in
   serve (Routes.listAdmin env q) w
   = (Responded
        {| code := 200; success := true; message := "";
           data := Page totalCount totalPages page
                     (take (Z.to_nat limit)
                        (drop (Z.to_nat ((page - 1) * limit))
                           (merge_sort Mongo.dateDesc selected))) |}, w)
   /\ limit * (totalPages - 1) < totalCount <= limit * totalPages).
Proof.
  intros page limit search status category selected Hpage Hlimit Hfind.
  split.
  - intros t. unfold selected, Routes.matching.
    rewrite !list_elem_of_In, List.filter_In, matches_buildQuery. tauto.
  - split.
    + unfold Routes.listAdmin, serve, try_catch, json, mbind, Handler_bind,
        Routes.find, Routes.countDocuments.
      fold page limit search status category. rewrite Hfind.
      destruct (Z.ltb_spec ((page - 1) * limit) 0) as [Hneg|_]; [nia|].
      fold selected. unfold Mongo.limitTo, Mongo.sortBy.
      rewrite Z.mul_1_r.
      destruct (Z.eqb_spec limit 0) as [H0|_]; [lia|].
      rewrite Z.abs_eq by lia. reflexivity.
    + apply ceilDiv_spec. lia.
Qed.

End WithEnv.

Lemma listAdmin_filter_and_pages_witness :
  serve (Routes.listAdmin (Examples.calm Examples.midnight)
           {| q_page := Some 2; q_limit := Some 2; q_search := Some "n";
              q_status := Some "active"; q_category := None |})
        Examples.world
  = (Responded
       {| code := 200; success := true; message := "";
          data := Page 3 2 2 [Examples.cancelledCup] |}, Examples.world).
Proof.
  destruct (listAdmin_filter_and_pages (Examples.calm Examples.midnight)
              {| q_page := Some 2; q_limit := Some 2; q_search := Some "n";
                 q_status := Some "active"; q_category := None |}
              Examples.world) as [_ [E _]].
  - simpl. lia.
  - simpl. lia.
  - reflexivity.
  - rewrite E. vm_compute. reflexivity.
Defined.

End AdminList.

(** * Further properties of the code *)

(** ** The status as the clock advances *)

Module StatusOrder.
Import Tournament.

Lemma toDateString_mono tz a b : a <= b -> toDateString tz a <= toDateString tz b.
Proof.
  intros H. unfold toDateString.
  apply Z.div_le_mono; [unfold msPerDay|]; lia.
Qed.

(** The first instant of the local calendar day of [d]. *)
Lemma same_day_iff tz a d :
  a <= d ->
  (toDateString tz a = toDateString tz d <->
   toDateString tz d * msPerDay - tz <= a).
Proof.
  intros Had. pose proof (toDateString_mono tz a d Had) as Hmono.
  unfold toDateString in *.
  assert (Hpos : 0 < msPerDay) by (unfold msPerDay; lia).
  pose proof (Z.mul_div_le (a + tz) msPerDay Hpos).
  pose proof (Z.mul_succ_div_gt (a + tz) msPerDay Hpos).
  pose proof (Z.mul_div_le (d + tz) msPerDay Hpos).
  split; intros H2; nia.
Qed.

(** X1: as the clock advances (same time zone), the recomputed status of a
    scheduled date never moves backwards: once completed it stays completed,
    and once ongoing it does not return to upcoming. *)
Theorem statusAt_never_backwards c1 c2 d :
  tzOffset c1 = tzOffset c2 -> now c1 <= now c2 ->
  (statusAt c1 d = completed -> statusAt c2 d = completed) /\
  (statusAt c1 d = ongoing -> statusAt c2 d = ongoing \/ statusAt c2 d = completed).
Proof.
  intros Htz Hnow. unfold statusAt. rewrite <- Htz.
  destruct (Z.gtb_spec (now c1) d) as [H1|H1].
  - split; [|discriminate]. intros _.
    destruct (Z.gtb_spec (now c2) d); [reflexivity | lia].
  - destruct (Z.eqb_spec (toDateString (tzOffset c1) (now c1))
                         (toDateString (tzOffset c1) d)) as [E|E];
      split; try discriminate. intros _.
    destruct (Z.gtb_spec (now c2) d) as [H2|H2]; [now right|left].
    pose proof (toDateString_mono (tzOffset c1) _ _ Hnow).
    pose proof (toDateString_mono (tzOffset c1) _ _ H2).
    destruct (Z.eqb_spec (toDateString (tzOffset c1) (now c2))
                         (toDateString (tzOffset c1) d)); [reflexivity | lia].
Qed.

Lemma statusAt_never_backwards_witness :
  statusAt Examples.tenOClock Examples.march15 = completed.
Proof.
  apply (statusAt_never_backwards
           (Examples.utc (Examples.march15 + 1)) Examples.tenOClock Examples.march15).
  - reflexivity.
  - simpl. lia.
  - reflexivity.
Defined.

(** X2: the recomputed status is ongoing exactly from the first instant of
    the local calendar day of the scheduled date up to the scheduled date
    itself.  For a date at local midnight (a date given without a time, in
    UTC) that is the single instant [now = date]. *)
Theorem statusAt_ongoing_window c d :
  (statusAt c d = ongoing <->
   toDateString (tzOffset c) d * msPerDay - tzOffset c <= now c <= d) /\
  ((d + tzOffset c) mod msPerDay = 0 ->
   (statusAt c d = ongoing <-> now c = d)).
Proof.
  assert (Hwin : statusAt c d = ongoing <->
                 toDateString (tzOffset c) d * msPerDay - tzOffset c <= now c <= d).
  { unfold statusAt. destruct (Z.gtb_spec (now c) d) as [H|H].
    - split; [discriminate | lia].
    - rewrite <- (same_day_iff (tzOffset c) (now c) d H).
      destruct (Z.eqb_spec (toDateString (tzOffset c) (now c))
                           (toDateString (tzOffset c) d)) as [E|E].
      + split; auto.
      + split; [discriminate | intros [E' _]; contradiction]. }
  split; [exact Hwin|].
  intros Hmid. rewrite Hwin. unfold toDateString.
  assert (Hpos : msPerDay <> 0) by (unfold msPerDay; lia).
  pose proof (Z.div_mod (d + tzOffset c) msPerDay Hpos) as Hdm.
  rewrite Hmid in Hdm. lia.
Qed.

Lemma statusAt_ongoing_window_witness :
  statusAt Examples.midnight Examples.march15 = ongoing.
Proof.
  apply (statusAt_ongoing_window Examples.midnight Examples.march15);
    reflexivity.
Defined.

(** X3: among the stored tournaments that are active and whose stored status
    is upcoming or ongoing, the public query finds exactly those that are not
    expired ([isExpired] false); a tournament whose [listUntil] is exactly now
    is not expired yet. *)
Theorem listed_iff_not_expired env w t :
  t ∈ Routes.stored w -> isActive t = true ->
  status t = upcoming \/ status t = ongoing ->
  (t ∈ Expected.listed env w <-> isExpired (clock env) t = false) /\
  (listUntil t = now (clock env) -> t ∈ Expected.listed env w).
Proof.
  intros Hst Hact Hstatus. rewrite PublicList.elem_of_listed. unfold isExpired.
  destruct (Z.gtb_spec (now (clock env)) (listUntil t)); split.
  - split; [intros (_ & _ & ? & _); lia | discriminate].
  - intros ?; lia.
  - split; auto.
  - intros _. repeat split; auto.
Qed.

Lemma listed_iff_not_expired_witness :
  Examples.springOpen ∈ Expected.listed (Examples.calm Examples.tenOClock) Examples.world.
Proof.
  assert (Hst : Examples.springOpen ∈ Routes.stored Examples.world).
  { apply list_elem_of_In. vm_compute. tauto. }
  apply (proj1 (listed_iff_not_expired (Examples.calm Examples.tenOClock) Examples.world
                  Examples.springOpen Hst eq_refl (or_introl eq_refl))).
  reflexivity.
Defined.

End StatusOrder.

(** ** The public id extracted from a URL *)

Module PublicIds.
Import Cloudinary.

Local Open Scope string_scope.
#[local] Arguments String.append : simpl nomatch.

Lemma append_assoc (a b c : string) : (a ++ b) ++ c = a ++ (b ++ c).
Proof. induction a as [|x a IH]; simpl; [reflexivity | now rewrite IH]. Qed.

Lemma append_nil_r (a : string) : a ++ "" = a.
Proof. induction a as [|x a IH]; simpl; [reflexivity | now rewrite IH]. Qed.

Lemma reverse_onto_spec s acc :
  JsString.reverse_onto s acc = JsString.reverse s ++ acc.
Proof.
  unfold JsString.reverse. revert acc.
  induction s as [|c s IH]; intros acc; simpl; [reflexivity|].
  rewrite (IH (String c acc)), (IH (String c "")), append_assoc. reflexivity.
Qed.

Lemma reverse_cons c s : JsString.reverse (String c s) = JsString.reverse s ++ String c "".
Proof. unfold JsString.reverse at 1. simpl. apply reverse_onto_spec. Qed.

Lemma reverse_app a b : JsString.reverse (a ++ b) = JsString.reverse b ++ JsString.reverse a.
Proof.
  induction a as [|c a IH]; simpl.
  - now rewrite append_nil_r.
  - now rewrite !reverse_cons, IH, append_assoc.
Qed.

Lemma reverse_involutive s : JsString.reverse (JsString.reverse s) = s.
Proof.
  induction s as [|c s IH]; [reflexivity|].
  now rewrite reverse_cons, reverse_app, IH.
Qed.

Lemma all_app p a b : Expected.all p (a ++ b) = Expected.all p a && Expected.all p b.
Proof.
  induction a as [|c a IH]; simpl; [reflexivity|].
  now rewrite IH, andb_assoc.
Qed.

(** [span] splits its argument: the first part satisfies the test, and the
    second part is empty or starts with a character that fails it. *)
Lemma span_spec p s a b :
  span p s = (a, b) ->
  s = a ++ b /\ Expected.all p a = true /\
  match b with EmptyString => True | String c _ => p c = false end.
Proof.
  revert a b. induction s as [|c s IH]; intros a b; simpl.
  - intros [= <- <-]. auto.
  - destruct (p c) eqn:Hc.
    + destruct (span p s) as [a' b'] eqn:E. intros [= <- <-].
      destruct (IH a' b' eq_refl) as (-> & Ha & Hb). simpl. now rewrite Hc, Ha.
    + intros [= <- <-]. auto.
Qed.

(** On a run that satisfies the test, followed by a character that does not
    (or by nothing), [span] returns the run. *)
Lemma span_run p a rest :
  Expected.all p a = true ->
  match rest with EmptyString => True | String c _ => p c = false end ->
  span p (a ++ rest) = (a, rest).
Proof.
  intros Ha Hrest. induction a as [|c a IH]; simpl in *.
  - destruct rest as [|c r]; [reflexivity|]. simpl. now rewrite Hrest.
  - apply andb_true_iff in Ha as [Hc Ha]. now rewrite Hc, IH.
Qed.

Lemma stripPrefix_app p r : stripPrefix p (p ++ r) = Some r.
Proof.
  induction p as [|c p IH]; simpl; [reflexivity|].
  now rewrite Ascii.eqb_refl.
Qed.

Lemma stripPrefix_Some p s r : stripPrefix p s = Some r -> s = p ++ r.
Proof.
  revert s. induction p as [|c p IH]; intros s; simpl.
  - now intros [= ->].
  - destruct s as [|d s]; [discriminate|].
    destruct (Ascii.eqb_spec c d) as [->|]; [|discriminate].
    intros H. now rewrite (IH s H).
Qed.

(** A pattern that does not start a string at least as long as itself does
    not start any extension of it. *)
Lemma stripPrefix_None_app p x y :
  stripPrefix p x = None -> (String.length p <= String.length x)%nat ->
  stripPrefix p (x ++ y) = None.
Proof.
  revert x. induction p as [|c p IH]; intros x; simpl; [discriminate|].
  destruct x as [|d x]; simpl; [lia|].
  destruct (Ascii.eqb c d); [|reflexivity].
  intros H Hlen. apply IH; [assumption | lia].
Qed.

Lemma occurs_here p s r : stripPrefix p s = Some r -> Expected.occurs p s = true.
Proof. intros H. destruct s; simpl; now rewrite H. Qed.

Lemma occurs_further p c s : Expected.occurs p s = true -> Expected.occurs p (String c s) = true.
Proof. intros H. simpl. destruct (stripPrefix p (String c s)); [reflexivity | exact H]. Qed.

(** What the backtracking over the second segment keeps: a non-empty prefix
    of the segment. *)
Lemma backtrack_spec taken : forall given rest kept,
  backtrack taken given rest = Some kept ->
  kept <> "" /\ exists back, JsString.reverse taken ++ given = kept ++ back.
Proof.
  induction taken as [|c taken IH]; intros given rest kept; simpl; [discriminate|].
  destruct (extensionToEnd (given ++ rest)).
  - intros [= <-]. split.
    + rewrite reverse_cons. destruct (JsString.reverse taken); discriminate.
    + exists given. reflexivity.
  - intros H. destruct (IH _ _ _ H) as [Hne [back Hback]]. split; [exact Hne|].
    exists back. rewrite <- Hback, reverse_cons, append_assoc. reflexivity.
Qed.

(** The group captured after the marker: two non-empty segments without a
    slash, and the text after the marker starts with it. *)
Lemma matchGroup_spec r g :
  matchGroup r = Some g ->
  exists seg1 seg2 rest,
    g = seg1 ++ "/" ++ seg2 /\ r = g ++ rest /\
    seg1 <> "" /\ seg2 <> "" /\
    Expected.all notSlash seg1 = true /\ Expected.all notSlash seg2 = true.
Proof.
  unfold matchGroup.
  destruct (span notSlash r) as [seg1 rest1] eqn:E1.
  destruct seg1 as [|c1 seg1]; [discriminate|].
  destruct rest1 as [|sl rest2]; [discriminate|].
  destruct (span notSlash rest2) as [run rest3] eqn:E2.
  destruct (backtrack (JsString.reverse run) "" rest3) as [kept|] eqn:Eb; [|discriminate].
  intros [= <-].
  apply span_spec in E1 as (Hr & H1 & Hsl). apply span_spec in E2 as (Hr2 & H2 & _).
  apply backtrack_spec in Eb as [Hne [back Hback]].
  rewrite reverse_involutive, append_nil_r in Hback.
  assert (sl = "/"%char) as ->.
  { unfold notSlash in Hsl. apply negb_false_iff in Hsl.
    now apply Ascii.eqb_eq in Hsl. }
  subst run. rewrite all_app in H2. apply andb_true_iff in H2 as [H2 _].
  exists (String c1 seg1), kept, (back ++ rest3).
  repeat split; try assumption; try discriminate.
  rewrite Hr, Hr2. simpl. now rewrite !append_assoc.
Qed.

Lemma occurs_app p a r : Expected.occurs p (a ++ p ++ r) = true.
Proof.
  induction a as [|c a IH].
  - simpl. apply (occurs_here p (p ++ r) r), stripPrefix_app.
  - apply occurs_further, IH.
Qed.

(** A successful match of the whole expression: the marker somewhere in the
    URL, and the group right after it. *)
Lemma matchUrl_spec url g :
  matchUrl url = Some g ->
  exists pre r, url = pre ++ marker ++ r /\ matchGroup r = Some g.
Proof.
  induction url as [|c url IH].
  - discriminate.
  - cbn [matchUrl].
    destruct (stripPrefix marker (String c url)) as [r|] eqn:Hhere.
    + destruct (matchGroup r) as [g'|] eqn:Hg.
      * intros [= <-]. exists "", r. split; [|exact Hg].
        now apply stripPrefix_Some in Hhere.
      * intros H. destruct (IH H) as (pre & r' & -> & Hg').
        exists (String c pre), r'. auto.
    + intros H. destruct (IH H) as (pre & r' & -> & Hg').
      exists (String c pre), r'. auto.
Qed.

(** X4: whenever [extractPublicId] returns an id, the id has the form
    [aspire-chess-academy/<folder>/<name>] with a non-empty folder and a
    non-empty name that contain no slash, and the URL contains the id
    preceded by a slash.  A URL without [/aspire-chess-academy/] therefore
    yields null, like an absent or empty URL. *)
Theorem extractPublicId_form cloudinaryUrl id :
  extractPublicId cloudinaryUrl = Some id ->
  exists url folder name,
    cloudinaryUrl = Some url /\
    id = "aspire-chess-academy/" ++ folder ++ "/" ++ name /\
    folder <> "" /\ name <> "" /\
    Expected.all notSlash folder = true /\ Expected.all notSlash name = true /\
    Expected.occurs ("/" ++ id) url = true /\
    Expected.occurs marker url = true.
Proof.
  unfold extractPublicId. destruct cloudinaryUrl as [url|]; [|discriminate].
  destruct (JsString.truthy url); [|discriminate].
  destruct (matchUrl url) as [g|] eqn:Hm; [|discriminate].
  intros [= <-].
  apply matchUrl_spec in Hm as (pre & r & -> & Hg).
  apply matchGroup_spec in Hg as (seg1 & seg2 & rest & -> & -> & H1 & H2 & A1 & A2).
  exists (pre ++ marker ++ (seg1 ++ "/" ++ seg2) ++ rest), seg1, seg2.
  repeat split; try assumption.
  - change ("/" ++ "aspire-chess-academy/" ++ seg1 ++ "/" ++ seg2)
      with (marker ++ seg1 ++ "/" ++ seg2).
    rewrite <- (append_assoc marker (seg1 ++ "/" ++ seg2) rest).
    apply occurs_app.
  - apply occurs_app.
Qed.

Lemma extractPublicId_form_witness :
  exists url folder name,
    (Tournament.posterImage Examples.juniorsDay) = Some url /\
    "aspire-chess-academy/posters/poster-1.jpg"
    = "aspire-chess-academy/" ++ folder ++ "/" ++ name.
Proof.
  destruct (extractPublicId_form (Tournament.posterImage Examples.juniorsDay)
              "aspire-chess-academy/posters/poster-1.jpg")
    as (url & folder & name & Hu & Hid & _).
  - vm_compute. reflexivity.
  - exists url, folder, name. auto.
Defined.

(** X5: the extension is never removed.  For a URL that ends with
    [/aspire-chess-academy/<folder>/<name>], folder and name non-empty and
    without a slash, and in which the marker does not occur earlier, the
    result is [aspire-chess-academy/<folder>/<name>] with the name whole,
    [.jpg] included: the name's own characters satisfy the greedy
    [[^\/]+] before the optional extension group is tried. *)
Theorem extractPublicId_keeps_extension pre folder name :
  folder <> "" -> name <> "" ->
  Expected.all notSlash folder = true -> Expected.all notSlash name = true ->
  Expected.occurs marker (pre ++ "/aspire-chess-academy") = false ->
  extractPublicId (Some (pre ++ marker ++ folder ++ "/" ++ name))
  = Some ("aspire-chess-academy/" ++ folder ++ "/" ++ name).
Proof.
  intros Hf Hn Af An Hfirst.
  assert (Hgroup : matchGroup (folder ++ "/" ++ name) = Some (folder ++ "/" ++ name)).
  { unfold matchGroup.
    rewrite (span_run notSlash folder ("/" ++ name) Af) by reflexivity.
    destruct folder as [|c folder]; [contradiction|].
    change ("/" ++ name) with (String "/" name).
    cbv iota.
    pose proof (span_run notSlash name "" An I) as Hspan.
    rewrite append_nil_r in Hspan. rewrite Hspan.
    destruct name as [|d name]; [contradiction|].
    destruct (JsString.reverse (String d name)) as [|e taken] eqn:Hrev.
    - apply (f_equal JsString.reverse) in Hrev.
      rewrite reverse_involutive in Hrev. discriminate.
    - cbn [backtrack]. change (extensionToEnd ("" ++ "")) with true. cbv iota.
      rewrite <- Hrev, reverse_involutive. reflexivity. }
  assert (Hurl : matchUrl (pre ++ marker ++ folder ++ "/" ++ name)
                 = Some (folder ++ "/" ++ name)).
  { clear Hf Hn Af An. revert Hfirst. induction pre as [|c pre IH]; intros Hfirst.
    - change ("" ++ marker ++ folder ++ "/" ++ name)
        with (String "/" ("aspire-chess-academy/" ++ folder ++ "/" ++ name)).
      cbn [matchUrl].
      change (String "/" ("aspire-chess-academy/" ++ folder ++ "/" ++ name))
        with (marker ++ folder ++ "/" ++ name).
      now rewrite stripPrefix_app, Hgroup.
    - change (String c pre ++ marker ++ folder ++ "/" ++ name)
        with (String c (pre ++ marker ++ folder ++ "/" ++ name)).
      cbn [matchUrl].
      change (String c pre ++ "/aspire-chess-academy")
        with (String c (pre ++ "/aspire-chess-academy")) in Hfirst.
      cbn [Expected.occurs] in Hfirst.
      destruct (stripPrefix marker (String c (pre ++ "/aspire-chess-academy")))
        eqn:Hhere; [discriminate|].
      assert (Hnone : stripPrefix marker (String c (pre ++ marker ++ folder ++ "/" ++ name))
                      = None).
      { change (pre ++ marker ++ folder ++ "/" ++ name)
          with (pre ++ "/aspire-chess-academy" ++ "/" ++ folder ++ "/" ++ name).
        rewrite <- (append_assoc pre "/aspire-chess-academy").
        change (String c ((pre ++ "/aspire-chess-academy") ++ "/" ++ folder ++ "/" ++ name))
          with (String c (pre ++ "/aspire-chess-academy") ++ "/" ++ folder ++ "/" ++ name).
        apply stripPrefix_None_app; [exact Hhere|].
        simpl. clear. induction pre; simpl; lia. }
      rewrite Hnone. apply IH, Hfirst. }
  unfold extractPublicId. rewrite Hurl.
  destruct (pre ++ marker ++ folder ++ "/" ++ name) eqn:E; [|reflexivity].
  destruct pre; discriminate.
Qed.

Lemma extractPublicId_keeps_extension_witness :
  extractPublicId
    (Some "https://res.cloudinary.com/your-cloud/image/upload/v1234567/aspire-chess-academy/students/student-123.jpg")
  = Some "aspire-chess-academy/students/student-123.jpg".
Proof.
  apply (extractPublicId_keeps_extension
           "https://res.cloudinary.com/your-cloud/image/upload/v1234567"
           "students" "student-123.jpg");
    first [discriminate | reflexivity].
Defined.

End PublicIds.

(** ** Deleting a tournament *)

Module Removal.
Import Tournament.

#[local] Arguments Routes.findById : simpl never.
#[local] Arguments Routes.deleteFromCloudinary : simpl never.
#[local] Arguments Routes.findByIdAndDelete : simpl never.
#[local] Arguments Cloudinary.extractPublicId : simpl never.

Section WithEnv.
Context (env : Env) (w : World) (k : Z) (t : doc).

Hypothesis Hfind : findFails env = false.
Hypothesis Hstored : db w !! k = Some t.

(** The poster step of the route: it never throws and never answers; it
    leaves the record store alone and removes at most the extracted id. *)
Lemma poster_step :
  exists blobs',
    (match posterImage t with
     | Some url =>
         if JsString.truthy url
         then
           match Cloudinary.extractPublicId (Some url) with
           | Some publicId =>
               if JsString.truthy publicId
               then try_catch (Routes.deleteFromCloudinary env publicId)
                              (fun deleteError => mret ())
               else mret ()
           | None => mret ()
           end
         else mret ()
     | None => mret ()
     end) w = (Normal (), {| db := db w; blobs := blobs' |})
    /\ (blobs' = blobs w \/
        exists p, Cloudinary.extractPublicId (posterImage t) = Some p /\
                  destroyFails env p = false /\ blobs' = blobs w ∖ {[p]})
    /\ (forall p, Cloudinary.extractPublicId (posterImage t) = Some p ->
                  destroyFails env p = false -> blobs' = blobs w ∖ {[p]}).
Proof.
  assert (Hsame : (Normal (), w) = (Normal (), {| db := db w; blobs := blobs w |})).
  { now destruct w. }
  destruct (posterImage t) as [url|] eqn:Hp.
  - destruct (JsString.truthy url) eqn:Htr.
    + destruct (Cloudinary.extractPublicId (Some url)) as [p|] eqn:Hx.
      * assert (Htp : JsString.truthy p = true).
        { unfold Cloudinary.extractPublicId in Hx. rewrite Htr in Hx.
          destruct (Cloudinary.matchUrl url); [|discriminate].
          now injection Hx as <-. }
        rewrite Htp. unfold try_catch, Routes.deleteFromCloudinary.
        destruct (destroyFails env p) eqn:Hd.
        -- exists (blobs w). split; [exact Hsame|]. split; [now left|].
           intros p' [= <-]. congruence.
        -- exists (blobs w ∖ {[p]}). split; [reflexivity|]. split.
           ++ right. exists p. auto.
           ++ now intros p' [= <-].
      * exists (blobs w). split; [exact Hsame|]. split; [now left | discriminate].
    + exists (blobs w). split; [exact Hsame|]. split; [now left|].
      destruct url; [|discriminate]. discriminate.
  - exists (blobs w). split; [exact Hsame|]. split; [now left | discriminate].
Qed.

(** X6: deleting an existing tournament, when the record store answers,
    responds 200 and removes exactly that record, whether or not the blob
    store deletes the poster: the other records stay, a later read of the
    same id answers 404, and the only public id that can leave the blob
    store is the one extracted from the tournament's poster URL. *)
Theorem deleteTournament_removes :
  exists w',
    serve (Routes.deleteTournament env false (ObjectId k)) w
    = (Responded {| code := 200; success := true;
                    message := "Tournament deleted successfully"; data := NoData |}, w')
    /\ db w' = delete k (db w)
    /\ (forall p, p ∈ blobs w -> p ∉ blobs w' ->
                  Cloudinary.extractPublicId (posterImage t) = Some p /\
                  destroyFails env p = false)
    /\ blobs w' ⊆ blobs w
    /\ serve (Routes.getOne env (ObjectId k)) w'
       = (Responded {| code := 404; success := false;
                       message := "Tournament not found"; data := NoData |}, w').
Proof.
  destruct poster_step as (blobs' & Hstep & Hblobs & _).
  exists {| db := delete k (db w); blobs := blobs' |}.
  split; [|split; [reflexivity|split; [|split]]].
  - unfold Routes.deleteTournament, serve. unfold try_catch at 1.
    unfold mbind, Handler_bind.
    rewrite HandlerFacts.findById_ok, Hstored by assumption.
    rewrite Hstep. reflexivity.
  - simpl. intros p Hin Hout.
    destruct Hblobs as [->|(p' & Hx & Hd & ->)]; [contradiction|].
    destruct (decide (p = p')) as [->|Hne]; [auto|].
    exfalso. apply Hout. apply elem_of_difference. split; [assumption|].
    now rewrite elem_of_singleton.
  - simpl. destruct Hblobs as [->|(p' & _ & _ & ->)]; intros x;
      [auto | rewrite elem_of_difference; tauto].
  - unfold Routes.getOne. run.
    rewrite HandlerFacts.findById_ok by assumption. simpl.
    now rewrite lookup_delete_eq.
Qed.

(** X7: when the poster of a stored tournament is in the blob store under
    the id extracted from its URL, the blob store deletes it, and the record
    store then fails the delete call, the route answers 500: the poster is
    gone from the blob store, nothing else has left it, and the record is
    stored as it was, still carrying the URL of the deleted poster. *)
Theorem deleteTournament_failed_delete p :
  Cloudinary.extractPublicId (posterImage t) = Some p ->
  p ∈ blobs w ->
  destroyFails env p = false ->
  exists w',
    serve (Routes.deleteTournament env true (ObjectId k)) w
    = (Responded {| code := 500; success := false;
                    message := "Server error while deleting tournament";
                    data := NoData |}, w')
    /\ (p ∉ blobs w')
    /\ blobs w' = blobs w ∖ {[p]}
    /\ db w' = db w
    /\ (exists url, posterImage <$> (db w' !! k) = Some (Some url) /\
                    Cloudinary.extractPublicId (Some url) = Some p).
Proof.
  intros Hx Hin Hd. destruct poster_step as (blobs' & Hstep & _ & Hb).
  rewrite (Hb p Hx Hd) in Hstep.
  exists {| db := db w; blobs := blobs w ∖ {[p]} |}.
  split; [|split; [|split; [reflexivity|split; [reflexivity|]]]].
  - unfold Routes.deleteTournament, serve. unfold try_catch at 1.
    unfold mbind, Handler_bind.
    rewrite HandlerFacts.findById_ok, Hstored by assumption.
    rewrite Hstep. reflexivity.
  - simpl. rewrite elem_of_difference, elem_of_singleton. tauto.
  - simpl. rewrite Hstored. simpl.
    destruct (posterImage t) as [url|] eqn:Hp; [|discriminate Hx].
    exists url. auto.
Qed.

End WithEnv.

Lemma deleteTournament_removes_witness :
  exists w',
    serve (Routes.deleteTournament (Examples.calm Examples.midnight) false (ObjectId 3))
          Examples.world
    = (Responded {| code := 200; success := true;
                    message := "Tournament deleted successfully"; data := NoData |}, w')
    /\ db w' = delete 3 (db Examples.world).
Proof.
  destruct (deleteTournament_removes (Examples.calm Examples.midnight) Examples.world
              3 Examples.juniorsDay eq_refl eq_refl) as (w' & E & Hdb & _).
  exists w'. auto.
Defined.

Lemma deleteTournament_failed_delete_witness :
  ("aspire-chess-academy/posters/poster-5" ∈ blobs Examples.clubWorld) /\
  exists w',
    serve (Routes.deleteTournament (Examples.calm Examples.midnight) true (ObjectId 5))
          Examples.clubWorld
    = (Responded {| code := 500; success := false;
                    message := "Server error while deleting tournament";
                    data := NoData |}, w')
    /\ ("aspire-chess-academy/posters/poster-5" ∉ blobs w')
    /\ db w' !! 5 = Some Examples.clubNight.
Proof.
  assert (Hin : "aspire-chess-academy/posters/poster-5" ∈ blobs Examples.clubWorld).
  { apply elem_of_union. left. now apply elem_of_singleton. }
  split; [exact Hin|].
  destruct (deleteTournament_failed_delete (Examples.calm Examples.midnight)
              Examples.clubWorld 5 Examples.clubNight eq_refl eq_refl
              "aspire-chess-academy/posters/poster-5" eq_refl Hin eq_refl)
    as (w' & E & Hout & _ & Hdb & _).
  exists w'. split; [exact E|]. split; [exact Hout|].
  rewrite Hdb. reflexivity.
Defined.

(** X8: deleting answers 404 for an id that is not stored and 400 for a
    malformed id (here the [catch] block names nothing out of scope), and
    leaves both stores as they were; with a record store that cannot be read
    it answers 500. *)
Theorem deleteTournament_errors env deleteFails w k :
  serve (Routes.deleteTournament env deleteFails Malformed) w
  = (Responded {| code := 400; success := false;
                  message := "Invalid tournament ID"; data := NoData |}, w) /\
  (findFails env = true ->
   serve (Routes.deleteTournament env deleteFails (ObjectId k)) w
   = (Responded {| code := 500; success := false;
                   message := "Server error while deleting tournament";
                   data := NoData |}, w)) /\
  (findFails env = false -> db w !! k = None ->
   serve (Routes.deleteTournament env deleteFails (ObjectId k)) w
   = (Responded {| code := 404; success := false;
                   message := "Tournament not found"; data := NoData |}, w)).
Proof.
  split; [reflexivity|]. split.
  - intros Hf. unfold Routes.deleteTournament, Routes.findById. run. now rewrite Hf.
  - intros Hf Hk. unfold Routes.deleteTournament. run.
    now rewrite HandlerFacts.findById_ok, Hk by assumption.
Qed.

Lemma deleteTournament_errors_witness :
  serve (Routes.deleteTournament (Examples.calm Examples.midnight) false (ObjectId 9))
        Examples.world
  = (Responded {| code := 404; success := false;
                  message := "Tournament not found"; data := NoData |}, Examples.world).
Proof.
  apply (deleteTournament_errors (Examples.calm Examples.midnight) false Examples.world 9);
    reflexivity.
Defined.

End Removal.

(** ** The list of past tournaments *)

Module PastList.
Import Tournament.

Lemma Sorted_take {A} (R : relation A) n (l : list A) :
  Sorted R l -> Sorted R (take n l).
Proof.
  intros Hs. revert n. induction Hs as [|x l Hs IH Hd]; intros [|n]; simpl;
    try constructor.
  - apply IH.
  - destruct Hd as [|y l' Hxy]; destruct n; simpl; constructor; assumption.
Qed.

Section WithEnv.
Context (env : Env) (w : World).

Lemma shownAsPast_sorted : Sorted Mongo.dateDesc (Expected.shownAsPast w).
Proof. apply Sorted_merge_sort, _. Qed.

Lemma elem_of_shownAsPast t :
  t ∈ Expected.shownAsPast w <->
  t ∈ Routes.stored w /\ isActive t = true /\ status t = completed /\ winner t <> None.
Proof.
  unfold Expected.shownAsPast, Routes.pastFilter.
  rewrite merge_sort_Permutation, !list_elem_of_In, List.filter_In.
  rewrite !andb_true_iff, !bool_decide_eq_true. tauto.
Qed.

(** X9: with a record store that can be read and a limit of at least 1 (6
    when the request has none), the past list answers 200 with at most
    [limit] entries, the first [limit] of the stored tournaments that are
    active, completed and have a winner, newest first: every entry carries a
    winner and the entries are in descending date order.  A limit of 0 does
    not truncate: every such tournament is returned.  With a record store
    that cannot be read the answer is 500 with no data. *)
Theorem listPast_limited (limit : option Z) :
  let n := default 6 limit in
  (findFails env = false -> 1 <= n ->
   let r := Routes.listPast env limit w in
   Routes.past_code r = 200 /\
   Routes.past_data r = Routes.project <$> take (Z.to_nat n) (Expected.shownAsPast w) /\
   Z.of_nat (length (Routes.past_data r)) <= n /\
   Forall (fun e => Routes.p_winner e <> None) (Routes.past_data r) /\
   Sorted Expected.newerFirst (Routes.past_data r)) /\
  (findFails env = false -> n = 0 ->
   Routes.past_data (Routes.listPast env limit w) = Routes.project <$> Expected.shownAsPast w) /\
  (findFails env = true ->
   Routes.past_code (Routes.listPast env limit w) = 500 /\
   Routes.past_data (Routes.listPast env limit w) = []).
Proof.
  intros n. unfold Routes.listPast, Routes.findPast. fold n.
  split; [|split].
  - intros Hf Hn. rewrite Hf. cbv zeta.
    unfold Mongo.limitTo, Mongo.sortBy. fold (Expected.shownAsPast w).
    destruct (Z.eqb_spec n 0); [lia|]. rewrite Z.abs_eq by lia. simpl.
    split; [reflexivity|]. split; [reflexivity|]. split; [|split].
    + rewrite length_fmap, length_take. lia.
    + rewrite Forall_fmap, Forall_forall. intros t Ht. simpl.
      apply (subseteq_take (Z.to_nat n) (Expected.shownAsPast w)) in Ht.
      now apply elem_of_shownAsPast in Ht.
    + apply (Sorted_fmap Routes.project Mongo.dateDesc Expected.newerFirst).
      * intros a b Hab. exact Hab.
      * apply Sorted_take, shownAsPast_sorted.
  - intros Hf Hn. rewrite Hf, Hn. reflexivity.
  - intros Hf. rewrite Hf. auto.
Qed.

End WithEnv.

Lemma listPast_limited_witness :
  Routes.past_data
    (Routes.listPast (Examples.calm Examples.midnight) (Some 1)
       {| db := <[1 := Expected.completedRecord Examples.springOpen "Alice" 3]>
                  (<[3 := Expected.completedRecord Examples.juniorsDay "Bob" 20]> ∅);
          blobs := ∅ |})
  = [Routes.project (Expected.completedRecord Examples.juniorsDay "Bob" 20)].
Proof.
  destruct (listPast_limited (Examples.calm Examples.midnight)
              {| db := <[1 := Expected.completedRecord Examples.springOpen "Alice" 3]>
                         (<[3 := Expected.completedRecord Examples.juniorsDay "Bob" 20]> ∅);
                 blobs := ∅ |} (Some 1)) as [H _].
  destruct H as (_ & E & _); [reflexivity | simpl; lia |].
  rewrite E. vm_compute. reflexivity.
Defined.

End PastList.

(** ** What create and update answer *)

Module Answers.
Import Tournament.

#[local] Arguments Routes.findById : simpl never.
#[local] Arguments Routes.save : simpl never.
#[local] Arguments Routes.saveNew : simpl never.
#[local] Arguments Routes.uploadToCloudinary : simpl never.
#[local] Arguments Routes.deleteFromCloudinary : simpl never.
#[local] Arguments Routes.tournamentValidation : simpl never.
#[local] Arguments Routes.newTournament : simpl never.
#[local] Arguments Routes.assign : simpl never.
#[local] Arguments Routes.sanitized : simpl never.
#[local] Arguments Routes.with_posterImage : simpl never.
#[local] Arguments Cloudinary.extractPublicId : simpl never.

(** X10: the update route never answers from its [catch] block.  Whatever
    the request, the stores and their failures, it answers with one of
    'Validation failed', 'Tournament not found', 'Failed to upload poster to
    cloud storage' or 'Tournament updated successfully', or its promise is
    rejected with the [ReferenceError] on [cloudinaryResult]; a valid body
    sent to a malformed id is rejected that way, with no 'Invalid tournament
    ID' answer, and so is any failure of the record store. *)
Theorem update_answers env req w :
  (forall o w',
     serve (Routes.update env req) w = (o, w') ->
     o = Rejected (ReferenceError "cloudinaryResult") \/
     exists r, o = Responded r /\
               message r ∈ ["Validation failed"; "Tournament not found";
                            "Failed to upload poster to cloud storage";
                            "Tournament updated successfully"]) /\
  (Routes.tournamentValidation (body req) = true ->
   params_id req = Malformed \/ findFails env = true ->
   serve (Routes.update env req) w = (Rejected (ReferenceError "cloudinaryResult"), w)).
Proof.
  split.
  - intros o w'. unfold Routes.update. run.
    destruct (Routes.tournamentValidation (body req)); simpl;
      [|intros [= <- <-]; right; eexists; split; [reflexivity | set_solver]].
    destruct (Routes.findById env (params_id req) w) as [[[old|]|r0|e] w0] eqn:Hf; simpl.
    + destruct (file req) as [buffer|]; simpl.
      * destruct (Routes.uploadToCloudinary env buffer w0) as [[up|r1|e1] w1] eqn:Hu; simpl.
        -- match goal with |- context [Routes.save env ?d ?w2] =>
             destruct (HandlerFacts.save_cases env d w2) as [(_ & E)|[e E]]; rewrite E
           end; [|intros [= <- <-]; now left].
           destruct (match posterImage old with
                     | Some url =>
                         if JsString.truthy url
                         then Cloudinary.extractPublicId (Some url)
                         else None
                     | None => None
                     end) as [oldId|].
           ++ destruct (JsString.truthy oldId).
              ** destruct (Routes.deleteFromCloudinary env oldId _) as [[[]|r2|e2] w2] eqn:Hd;
                   simpl; intros [= <- <-]; right; eexists;
                   (split; [reflexivity|]); try set_solver.
                 unfold Routes.deleteFromCloudinary in Hd.
                 destruct (destroyFails env oldId); discriminate.
              ** intros [= <- <-]; right; eexists; split; [reflexivity | set_solver].
           ++ intros [= <- <-]; right; eexists; split; [reflexivity | set_solver].
        -- unfold Routes.uploadToCloudinary in Hu.
           destruct (uploadResult env); discriminate.
        -- intros [= <- <-]; right; eexists; split; [reflexivity | set_solver].
      * match goal with |- context [Routes.save env ?d ?w2] =>
          destruct (HandlerFacts.save_cases env d w2) as [(_ & E)|[e E]]; rewrite E
        end; intros [= <- <-]; [right; eexists; split; [reflexivity | set_solver] | now left].
    + intros [= <- <-]; right; eexists; split; [reflexivity | set_solver].
    + unfold Routes.findById in Hf. destruct (params_id req); [discriminate|].
      destruct (findFails env); discriminate.
    + intros [= <- <-]. now left.
  - intros Hv Hbad. unfold Routes.update, Routes.findById. run. rewrite Hv. simpl.
    destruct (params_id req) as [|k]; [reflexivity|].
    destruct Hbad as [Hbad|Hbad]; [discriminate|]. now rewrite Hbad.
Qed.

Lemma update_answers_witness :
  serve (Routes.update (Examples.calm Examples.midnight) Examples.overbooked) Examples.world
  = (Rejected (ReferenceError "cloudinaryResult"), Examples.world).
Proof.
  apply (update_answers (Examples.calm Examples.midnight) Examples.overbooked Examples.world);
    [reflexivity | now left].
Defined.

(** X11: the create route never answers from its [catch] block either: it
    answers 'Validation failed', 'Failed to upload poster to cloud storage'
    or 'Tournament created successfully', or its promise is rejected with the
    [ReferenceError].  A failed write is rejected that way also when no
    poster was sent, and then leaves both stores as they were. *)
Theorem create_answers env req w :
  (forall o w',
     serve (Routes.create env req) w = (o, w') ->
     o = Rejected (ReferenceError "cloudinaryResult") \/
     exists r, o = Responded r /\
               message r ∈ ["Validation failed";
                            "Failed to upload poster to cloud storage";
                            "Tournament created successfully"]) /\
  (Routes.tournamentValidation (body req) = true -> file req = None ->
   schemaValid (Routes.newTournament env (Routes.sanitized (body req))) = false \/
   saveFails env (Routes.newTournament env (Routes.sanitized (body req))) = true ->
   serve (Routes.create env req) w = (Rejected (ReferenceError "cloudinaryResult"), w)).
Proof.
  split.
  - intros o w'. unfold Routes.create. run.
    destruct (Routes.tournamentValidation (body req)); simpl;
      [|intros [= <- <-]; right; eexists; split; [reflexivity | set_solver]].
    destruct (file req) as [buffer|]; simpl.
    + destruct (Routes.uploadToCloudinary env buffer w) as [[up|r1|e1] w1] eqn:Hu; simpl.
      * match goal with |- context [Routes.saveNew env ?d ?w2] =>
          destruct (HandlerFacts.saveNew_cases env d w2) as [(_ & _ & E)|[e E]]; rewrite E
        end; intros [= <- <-]; [right; eexists; split; [reflexivity | set_solver] | now left].
      * unfold Routes.uploadToCloudinary in Hu.
        destruct (uploadResult env); discriminate.
      * intros [= <- <-]; right; eexists; split; [reflexivity | set_solver].
    + match goal with |- context [Routes.saveNew env ?d ?w2] =>
        destruct (HandlerFacts.saveNew_cases env d w2) as [(_ & _ & E)|[e E]]; rewrite E
      end; intros [= <- <-]; [right; eexists; split; [reflexivity | set_solver] | now left].
  - intros Hv Hfile Hfail. unfold Routes.create. run. rewrite Hv, Hfile. simpl.
    destruct (HandlerFacts.saveNew_throws env _ w Hfail) as [e E]. now rewrite E.
Qed.

Lemma create_answers_witness :
  serve (Routes.create (Examples.writesFail Examples.midnight) Examples.overbooked)
        Examples.world
  = (Rejected (ReferenceError "cloudinaryResult"), Examples.world).
Proof.
  apply (create_answers (Examples.writesFail Examples.midnight) Examples.overbooked
           Examples.world); [reflexivity | reflexivity | now right].
Defined.

(** X12: validation comes before every call to a store, and a failed upload
    stops the request.  A body that fails the validation chain is answered
    400 by create and by update (whatever the id) with both stores untouched;
    a valid body whose poster upload fails is answered 500 'Failed to upload
    poster to cloud storage' by create, and by update on a stored tournament,
    again with both stores untouched. *)
Theorem invalid_body_and_failed_upload env req w :
  (Routes.tournamentValidation (body req) = false ->
   serve (Routes.create env req) w
   = (Responded {| code := 400; success := false; message := "Validation failed";
                   data := NoData |}, w) /\
   serve (Routes.update env req) w
   = (Responded {| code := 400; success := false; message := "Validation failed";
                   data := NoData |}, w)) /\
  (Routes.tournamentValidation (body req) = true ->
   file req <> None -> uploadResult env = None ->
   serve (Routes.create env req) w
   = (Responded {| code := 500; success := false;
                   message := "Failed to upload poster to cloud storage";
                   data := NoData |}, w) /\
   (forall k old, params_id req = ObjectId k -> findFails env = false ->
                  db w !! k = Some old ->
      serve (Routes.update env req) w
      = (Responded {| code := 500; success := false;
                      message := "Failed to upload poster to cloud storage";
                      data := NoData |}, w))).
Proof.
  split.
  - intros Hv. unfold Routes.create, Routes.update. run. now rewrite Hv.
  - intros Hv Hfile Hup. destruct (file req) as [buffer|] eqn:Hb; [|contradiction].
    split.
    + unfold Routes.create, Routes.uploadToCloudinary. run.
      now rewrite Hv, Hb, Hup.
    + intros k old Hid Hfind Hold.
      unfold Routes.update, Routes.uploadToCloudinary. run.
      rewrite Hv, Hid. simpl.
      rewrite HandlerFacts.findById_ok, Hold, Hb by assumption. simpl.
      now rewrite Hup.
Qed.

Lemma invalid_body_and_failed_upload_witness :
  serve (Routes.update
           {| clock := Examples.midnight; findFails := false; saveFails := fun _ => false;
              uploadResult := None; destroyFails := fun _ => false; newObjectId := 4;
              regexTest := fun _ _ _ => false |}
           Examples.replacePoster) Examples.world
  = (Responded {| code := 500; success := false;
                  message := "Failed to upload poster to cloud storage";
                  data := NoData |}, Examples.world) /\
  serve (Routes.create (Examples.calm Examples.midnight)
           {| params_id := Malformed; body := Examples.blankBody; file := Some "JFIF" |})
        Examples.world
  = (Responded {| code := 400; success := false; message := "Validation failed";
                  data := NoData |}, Examples.world).
Proof.
  split.
  - eapply (invalid_body_and_failed_upload _ Examples.replacePoster Examples.world);
      first [reflexivity | discriminate].
  - apply (proj1 (invalid_body_and_failed_upload (Examples.calm Examples.midnight)
                    {| params_id := Malformed; body := Examples.blankBody;
                       file := Some "JFIF" |} Examples.world)).
    reflexivity.
Defined.

End Answers.

(** ** Successful writes, and reads after them *)

Module Writes.
Import Tournament.

#[local] Arguments Routes.findById : simpl never.
#[local] Arguments Routes.save : simpl never.
#[local] Arguments Routes.saveNew : simpl never.
#[local] Arguments Routes.uploadToCloudinary : simpl never.
#[local] Arguments Routes.deleteFromCloudinary : simpl never.
#[local] Arguments Routes.tournamentValidation : simpl never.
#[local] Arguments Routes.sanitized : simpl never.
#[local] Arguments Cloudinary.extractPublicId : simpl never.

Lemma set_status_same t : set_status (status t) t = t.
Proof. now destruct t. Qed.

Lemma set_isActive_twice t :
  set_isActive (negb (isActive (set_isActive (negb (isActive t)) t)))
               (set_isActive (negb (isActive t)) t) = t.
Proof. destruct t as [? ? ? ? ? ? ? ? ? ? b ? ?]. simpl. now rewrite negb_involutive. Qed.

Section WithEnv.
Context (env : Env) (w : World).

(** X13: a create request with a valid body, no poster, a document that
    passes the schema and a record store that accepts the write is answered
    201 with the new document: it has the id given by mongoose, the trimmed
    name, the counts and flags of the body or the schema defaults (0
    participants, upcoming, active), it is stored under its id with every
    other record untouched, the blob store is not touched, and a read of that
    id then returns it with its status recomputed. *)
Theorem create_stores_new (req : Request) :
  let t := Routes.newTournament env (Routes.sanitized (body req)) in
  Routes.tournamentValidation (body req) = true -> file req = None ->
  schemaValid t = true -> saveFails env t = false ->
  serve (Routes.create env req) w
  = (Responded {| code := 201; success := true;
                  message := "Tournament created successfully"; data := Doc t |},
     {| db := <[newObjectId env := t]> (db w); blobs := blobs w |}) /\
  _id t = newObjectId env /\
  name t = JsString.trim (b_name (body req)) /\
  currentParticipants t = default 0 (b_currentParticipants (body req)) /\
  status t = default upcoming (b_status (body req)) /\
  isActive t = default true (b_isActive (body req)) /\
  (findFails env = false -> saveFails env (assignStatus (clock env) t) = false ->
   exists w',
     serve (Routes.getOne env (ObjectId (newObjectId env)))
           {| db := <[newObjectId env := t]> (db w); blobs := blobs w |}
     = (Responded {| code := 200; success := true; message := "";
                     data := Doc (assignStatus (clock env) t) |}, w')).
Proof.
  intros t Hv Hfile Hvalid Hsave.
  split; [|split; [reflexivity|split; [|split; [reflexivity|split;
    [reflexivity|split; [reflexivity|]]]]]].
  - unfold Routes.create. run. rewrite Hv, Hfile. simpl.
    fold t. now rewrite HandlerFacts.saveNew_ok by assumption.
  - unfold t, Routes.newTournament, Routes.sanitized. simpl.
    apply JsStringFacts.trim_idempotent.
  - intros Hfind Hsave'. unfold Routes.getOne. run.
    rewrite HandlerFacts.findById_ok by assumption. simpl.
    rewrite lookup_insert_eq. unfold Routes.updateStatus.
    rewrite HandlerFacts.save_ok by assumption. eauto.
Qed.

(** X14: an update that replaces the poster of a stored tournament, with a
    valid body, the upload succeeding and the write accepted, is answered 200
    whether or not the blob store deletes the old poster: the stored record
    carries the new poster URL, the new public id is in the blob store (unless
    it is the very id extracted from the old URL and was deleted as such),
    and nothing but the id extracted from the old URL has left it. *)
Theorem update_replaces_poster (req : Request) k old buffer uploaded :
  let t := Routes.assign old
             (Routes.with_posterImage (Cloudinary.secure_url uploaded)
                (Routes.sanitized (body req))) in
  Routes.tournamentValidation (body req) = true ->
  params_id req = ObjectId k -> findFails env = false -> db w !! k = Some old ->
  file req = Some buffer -> uploadResult env = Some uploaded ->
  schemaValid t = true -> saveFails env t = false ->
  exists w',
    serve (Routes.update env req) w
    = (Responded {| code := 200; success := true;
                    message := "Tournament updated successfully"; data := Doc t |}, w')
    /\ db w' = <[_id old := t]> (db w)
    /\ posterImage t = Some (Cloudinary.secure_url uploaded)
    /\ (forall p, p ∈ blobs w -> p ∉ blobs w' ->
                  Cloudinary.extractPublicId (posterImage old) = Some p)
    /\ (Cloudinary.extractPublicId (posterImage old) <> Some (Cloudinary.public_id uploaded) ->
        Cloudinary.public_id uploaded ∈ blobs w').
Proof.
  intros t Hv Hid Hfind Hold Hfile Hup Hvalid Hsave.
  unfold Routes.update. run. rewrite Hv, Hid. simpl.
  rewrite HandlerFacts.findById_ok, Hold, Hfile by assumption. simpl.
  unfold Routes.uploadToCloudinary. rewrite Hup. simpl. fold t.
  rewrite HandlerFacts.save_ok by assumption.
  assert (Hextract :
            match posterImage old with
            | Some url =>
                if JsString.truthy url then Cloudinary.extractPublicId (Some url) else None
            | None => None
            end = Cloudinary.extractPublicId (posterImage old)).
  { destruct (posterImage old) as [[|c url]|]; reflexivity. }
  rewrite Hextract.
  destruct (Cloudinary.extractPublicId (posterImage old)) as [oldId|] eqn:Hx.
  - destruct (JsString.truthy oldId).
    + unfold Routes.deleteFromCloudinary.
      destruct (destroyFails env oldId); simpl; eexists;
        (split; [reflexivity|]); (split; [reflexivity|]); (split; [reflexivity|]);
        simpl; split.
      * intros p Hin Hout. exfalso. apply Hout. apply elem_of_union. now right.
      * intros _. apply elem_of_union. left. now apply elem_of_singleton.
      * intros p Hin Hout. destruct (decide (p = oldId)) as [->|Hne]; [reflexivity|].
        exfalso. apply Hout. apply elem_of_difference. split.
        -- apply elem_of_union. now right.
        -- now rewrite elem_of_singleton.
      * intros Hne. apply elem_of_difference. split.
        -- apply elem_of_union. left. now apply elem_of_singleton.
        -- rewrite elem_of_singleton. congruence.
    + eexists. split; [reflexivity|]. split; [reflexivity|]. split; [reflexivity|].
      simpl. split.
      * intros p Hin Hout. exfalso. apply Hout. apply elem_of_union. now right.
      * intros _. apply elem_of_union. left. now apply elem_of_singleton.
  - eexists. split; [reflexivity|]. split; [reflexivity|]. split; [reflexivity|].
    simpl. split.
    + intros p Hin Hout. exfalso. apply Hout. apply elem_of_union. now right.
    + intros _. apply elem_of_union. left. now apply elem_of_singleton.
Qed.

(** X15: toggling the active flag of a stored tournament twice, with both
    writes accepted.  Each toggle answers 200 with the document it has
    written: the first carries the inverted flag, the second the flag as it
    was at the start, and both carry every other declared path as it was
    stored.  After the second toggle the record is stored with these paths,
    the other records are as they were, and the blob store is untouched.
    (Both toggles write; the [updatedAt] of the record, which is not among
    the declared paths, moves with each of them.) *)
Theorem toggleActive_twice (t : doc) :
  findFails env = false -> db w !! _id t = Some t ->
  schemaValid t = true ->
  saveFails env (set_isActive (negb (isActive t)) t) = false ->
  saveFails env t = false ->
  exists t1 w1 t2 w2,
    serve (Routes.toggleActive env (ObjectId (_id t))) w
    = (Responded {| code := 200; success := true;
                    message := if isActive t1
                               then "Tournament activated successfully"
                               else "Tournament deactivated successfully";
                    data := Doc t1 |}, w1)
    /\ isActive t1 = negb (isActive t) /\ Expected.sameButActive t1 t
    /\ db w1 !! _id t = Some t1
    /\ serve (Routes.toggleActive env (ObjectId (_id t))) w1
       = (Responded {| code := 200; success := true;
                       message := if isActive t2
                                  then "Tournament activated successfully"
                                  else "Tournament deactivated successfully";
                       data := Doc t2 |}, w2)
    /\ isActive t2 = isActive t /\ Expected.sameButActive t2 t
    /\ db w2 !! _id t = Some t2
    /\ blobs w2 = blobs w
    /\ (forall k, k <> _id t -> db w2 !! k = db w !! k).
Proof.
  intros Hfind Hstored Hvalid Hs1 Hs2.
  assert (Hv1 : schemaValid (set_isActive (negb (isActive t)) t) = true).
  { revert Hvalid. rewrite !HandlerFacts.schemaValid_spec. simpl. tauto. }
  exists (set_isActive (negb (isActive t)) t).
  exists {| db := <[_id t := set_isActive (negb (isActive t)) t]> (db w);
            blobs := blobs w |}.
  exists t.
  exists {| db := <[_id t := t]> (<[_id t := set_isActive (negb (isActive t)) t]> (db w));
            blobs := blobs w |}.
  split; [|split; [reflexivity|split; [unfold Expected.sameButActive; simpl; tauto|]]].
  { unfold Routes.toggleActive. run.
    rewrite HandlerFacts.findById_ok, Hstored by assumption.
    rewrite HandlerFacts.save_ok by assumption. reflexivity. }
  split; [apply lookup_insert_eq|].
  split.
  { unfold Routes.toggleActive. run.
    rewrite HandlerFacts.findById_ok by assumption. simpl.
    rewrite lookup_insert_eq. rewrite set_isActive_twice.
    rewrite HandlerFacts.save_ok by assumption. reflexivity. }
  split; [reflexivity|]. split; [unfold Expected.sameButActive; tauto|].
  split; [apply lookup_insert_eq|]. split; [reflexivity|].
  intros k Hk. simpl. now rewrite !lookup_insert_ne by congruence.
Qed.

(** X16: a completion made before the scheduled date does not survive the
    next read.  After a successful [complete] of a stored tournament (no
    final count supplied), a read of it at a clock that is not after its date
    answers with the winner still set but with the status recomputed to
    ongoing or upcoming, and stores that status. *)
Theorem complete_then_read (t : doc) (winner : string) :
  let done := Expected.completedRecord t winner (currentParticipants t) in
  findFails env = false -> db w !! _id t = Some t ->
  JsString.trim winner <> EmptyString ->
  schemaValid t = true -> saveFails env done = false ->
  saveFails env (assignStatus (clock env) done) = false ->
  now (clock env) <= date t ->
  exists w1 w2 t2,
    serve (Routes.complete env (ObjectId (_id t)) (Some winner) None) w
    = (Responded {| code := 200; success := true;
                    message := "Tournament marked as completed"; data := Doc done |}, w1)
    /\ status done = completed
    /\ serve (Routes.getOne env (ObjectId (_id t))) w1
       = (Responded {| code := 200; success := true; message := ""; data := Doc t2 |}, w2)
    /\ Tournament.winner t2 = Some (JsString.trim winner)
    /\ (status t2 = ongoing \/ status t2 = upcoming)
    /\ db w2 !! _id t = Some t2.
Proof.
  intros done Hfind Hstored Hname Hvalid Hs1 Hs2 Hnow.
  assert (Hvd : schemaValid done = true).
  { revert Hvalid. rewrite !HandlerFacts.schemaValid_spec. simpl. tauto. }
  exists {| db := <[_id t := done]> (db w); blobs := blobs w |}.
  exists {| db := <[_id t := assignStatus (clock env) done]> (<[_id t := done]> (db w));
            blobs := blobs w |}.
  exists (assignStatus (clock env) done).
  split; [|split; [reflexivity|split; [|split; [reflexivity|split]]]].
  - unfold Routes.complete. run.
    assert (Hw : JsString.truthy winner = true).
    { destruct winner; [now contradiction Hname | reflexivity]. }
    assert (Htw : JsString.truthy (JsString.trim winner) = true).
    { destruct (JsString.trim winner); [now contradiction Hname | reflexivity]. }
    rewrite Hw, Htw. simpl.
    rewrite HandlerFacts.findById_ok, Hstored by assumption.
    unfold assign_winner. rewrite JsStringFacts.trim_idempotent. simpl.
    fold (Expected.completedRecord t winner (currentParticipants t)). fold done.
    now rewrite HandlerFacts.save_ok by assumption.
  - unfold Routes.getOne. run.
    rewrite HandlerFacts.findById_ok by assumption. simpl.
    rewrite lookup_insert_eq. unfold Routes.updateStatus.
    now rewrite HandlerFacts.save_ok by assumption.
  - rewrite Lifecycle.status_assignStatus. simpl. unfold statusAt.
    destruct (Z.gtb_spec (now (clock env)) (date t)); [lia|].
    destruct (_ =? _); auto.
  - simpl. apply lookup_insert_eq.
Qed.

(** X17: the count patch, the completion, the toggle and the single read
    always answer (their promise is never rejected), and whenever the answer
    is not a 200 both stores are exactly as they were. *)
Theorem patches_fail_cleanly id newCount winner finalParticipants :
  forall h, h ∈ [Routes.updateParticipantCount env id newCount;
                 Routes.complete env id winner finalParticipants;
                 Routes.toggleActive env id;
                 Routes.getOne env id] ->
  exists r w', serve h w = (Responded r, w') /\ (code r <> 200 -> w' = w).
Proof.
  intros h Hh.
  repeat (apply elem_of_cons in Hh as [->|Hh]); [| | | |now apply elem_of_nil in Hh].
  - unfold Routes.updateParticipantCount. run.
    destruct newCount as [n|]; [|eauto].
    destruct (n <? 0); [eauto|].
    unfold Routes.findById. destruct id as [|key]; [eauto|].
    destruct (findFails env); simpl; [eauto|].
    destruct (db w !! key) as [t|]; [|eauto].
    destruct (n >? maxParticipants t); [eauto|].
    destruct (HandlerFacts.save_cases env (set_currentParticipants n t) w)
      as [(_ & E)|[e E]]; rewrite E; simpl.
    + eexists. eexists. split; [reflexivity|]. simpl. congruence.
    + destruct (bool_decide _); eauto.
  - unfold Routes.complete. run.
    destruct winner as [name|]; [|eauto].
    destruct (negb (JsString.truthy name) || negb (JsString.truthy (JsString.trim name)));
      [eauto|].
    unfold Routes.findById. destruct id as [|key]; [eauto|].
    destruct (findFails env); simpl; [eauto|].
    destruct (db w !! key) as [t|]; [|eauto].
    match goal with |- context [Routes.save env ?d ?w0] =>
      destruct (HandlerFacts.save_cases env d w0) as [(_ & E)|[e E]]; rewrite E
    end; simpl.
    + eexists. eexists. split; [reflexivity|]. simpl. congruence.
    + destruct (bool_decide _); eauto.
  - unfold Routes.toggleActive. run.
    unfold Routes.findById. destruct id as [|key]; [eauto|].
    destruct (findFails env); simpl; [eauto|].
    destruct (db w !! key) as [t|]; [|eauto].
    match goal with |- context [Routes.save env ?d ?w0] =>
      destruct (HandlerFacts.save_cases env d w0) as [(_ & E)|[e E]]; rewrite E
    end; simpl.
    + eexists. eexists. split; [reflexivity|]. simpl. congruence.
    + destruct (bool_decide _); eauto.
  - unfold Routes.getOne. run.
    unfold Routes.findById. destruct id as [|key]; [eauto|].
    destruct (findFails env); simpl; [eauto|].
    destruct (db w !! key) as [t|]; [|eauto].
    unfold Routes.updateStatus.
    match goal with |- context [Routes.save env ?d ?w0] =>
      destruct (HandlerFacts.save_cases env d w0) as [(_ & E)|[e E]]; rewrite E
    end; simpl.
    + eexists. eexists. split; [reflexivity|]. simpl. congruence.
    + destruct (bool_decide _); eauto.
Qed.

(** X18: reading a stored tournament whose stored status is already the one
    the clock gives changes nothing: the answer carries the stored record and
    both stores are as they were.  No write is sent, so this holds whatever
    the record store would do with one. *)
Theorem getOne_current (t : doc) :
  findFails env = false -> db w !! _id t = Some t ->
  status t = statusAt (clock env) (date t) ->
  schemaValid t = true ->
  serve (Routes.getOne env (ObjectId (_id t))) w
  = (Responded {| code := 200; success := true; message := ""; data := Doc t |}, w).
Proof.
  intros Hfind Hstored Hstatus Hvalid.
  assert (Hsame : assignStatus (clock env) t = t).
  { unfold assignStatus. rewrite <- Hstatus. apply set_status_same. }
  unfold Routes.getOne. run.
  rewrite HandlerFacts.findById_ok, Hstored by assumption.
  unfold Routes.updateStatus. rewrite Hsame.
  now rewrite HandlerFacts.save_unchanged by assumption.
Qed.

End WithEnv.

Lemma create_stores_new_witness :
  exists t,
    db (serve (Routes.create (Examples.calm Examples.midnight)
                 {| params_id := Malformed; body := Examples.paddedBody; file := None |})
              Examples.world).2 !! 4 = Some t
    /\ name t = "Autumn Classic".
Proof.
  destruct (create_stores_new (Examples.calm Examples.midnight) Examples.world
              {| params_id := Malformed; body := Examples.paddedBody; file := None |})
    as (E & _ & Hname & _);
    [reflexivity | reflexivity | reflexivity | reflexivity |].
  eexists. split.
  - rewrite E. apply lookup_insert_eq.
  - rewrite Hname. reflexivity.
Defined.

Lemma update_replaces_poster_witness :
  exists w',
    serve (Routes.update (Examples.calm Examples.midnight) Examples.replacePoster)
          Examples.world
    = (Responded {| code := 200; success := true;
                    message := "Tournament updated successfully";
                    data := Doc (Routes.assign Examples.juniorsDay
                                   (Routes.with_posterImage
                                      (Cloudinary.secure_url Examples.newPoster)
                                      (Routes.sanitized Examples.autumnBody))) |}, w').
Proof.
  destruct (update_replaces_poster (Examples.calm Examples.midnight) Examples.world
              Examples.replacePoster 3 Examples.juniorsDay "JFIF" Examples.newPoster)
    as (w' & E & _); try reflexivity.
  exists w'. exact E.
Defined.

Lemma toggleActive_twice_witness :
  exists t1 w1 t2 w2,
    serve (Routes.toggleActive (Examples.calm Examples.midnight) (ObjectId 1)) Examples.world
    = (Responded {| code := 200; success := true;
                    message := if isActive t1
                               then "Tournament activated successfully"
                               else "Tournament deactivated successfully";
                    data := Doc t1 |}, w1)
    /\ isActive t1 = false
    /\ db w2 !! 1 = Some t2
    /\ isActive t2 = true /\ name t2 = "Spring Open".
Proof.
  destruct (toggleActive_twice (Examples.calm Examples.midnight) Examples.world
              Examples.springOpen)
    as (t1 & w1 & t2 & w2 & E1 & Ha1 & _ & _ & _ & Ha2 & Hsame & Hst & _);
    try reflexivity.
  exists t1, w1, t2, w2.
  split; [exact E1|]. split; [exact Ha1|]. split; [exact Hst|].
  split; [exact Ha2|]. apply Hsame.
Defined.

Lemma complete_then_read_witness :
  exists w1 w2 t2,
    serve (Routes.getOne (Examples.calm Examples.dayBefore) (ObjectId 1)) w1
    = (Responded {| code := 200; success := true; message := ""; data := Doc t2 |}, w2)
    /\ winner t2 = Some "Bob"
    /\ (status t2 = ongoing \/ status t2 = upcoming).
Proof.
  destruct (complete_then_read (Examples.calm Examples.dayBefore) Examples.world
              Examples.springOpen Examples.paddedBob)
    as (w1 & w2 & t2 & _ & _ & E & Hw & Hs & _); try reflexivity.
  - vm_compute. discriminate.
  - vm_compute. discriminate.
  - exists w1, w2, t2. auto.
Defined.

Lemma patches_fail_cleanly_witness :
  exists r w',
    serve (Routes.toggleActive (Examples.calm Examples.midnight) (ObjectId 9)) Examples.world
    = (Responded r, w') /\ (code r <> 200 -> w' = Examples.world).
Proof.
  apply (patches_fail_cleanly (Examples.calm Examples.midnight) Examples.world
           (ObjectId 9) None None None).
  apply list_elem_of_further, list_elem_of_further, list_elem_of_here.
Defined.

Lemma getOne_current_witness :
  serve (Routes.getOne (Examples.writesFail Examples.dayBefore) (ObjectId 1)) Examples.world
  = (Responded {| code := 200; success := true; message := "";
                  data := Doc Examples.springOpen |}, Examples.world).
Proof.
  apply (getOne_current (Examples.writesFail Examples.dayBefore) Examples.world
           Examples.springOpen); reflexivity.
Defined.

End Writes.

(** ** The pages of the admin list *)

Module Pages.
Import Tournament.

(** Cutting a list into [m] consecutive chunks of [n] elements and joining
    them gives its first [m * n] elements. *)
Lemma chunks_take {A} (l : list A) (n m : nat) :
  concat ((fun i => take n (drop (i * n) l)) <$> seq 0 m) = take (m * n) l.
Proof.
  induction m as [|m IH]; [reflexivity|].
  rewrite seq_S, fmap_app, concat_app, IH. simpl.
  rewrite app_nil_r, take_take_drop. f_equal. lia.
Qed.

Section WithEnv.
Context (env : Env) (w : World) (q : AdminQuery).

Let limit := default 10 (q_limit q).
Let sorted := Expected.adminSelection env q w.

Hypothesis Hlimit : 1 <= limit.
Hypothesis Hfind : findFails env = false.

(** The items of page [p], for [p] at least 1. *)
Lemma adminItems_page (p : Z) :
  1 <= p ->
  Expected.adminItems env (Expected.withPage p q) w
  = take (Z.to_nat limit) (drop (Z.to_nat ((p - 1) * limit)) sorted).
Proof.
  intros Hp. unfold Expected.adminItems, Routes.listAdmin, serve, try_catch, json,
    mbind, Handler_bind, Routes.find, Routes.countDocuments.
  simpl. fold limit. rewrite Hfind.
  destruct (Z.ltb_spec ((p - 1) * limit) 0) as [Hneg|_]; [nia|].
  unfold Mongo.limitTo, Mongo.sortBy. rewrite Z.mul_1_r.
  destruct (Z.eqb_spec limit 0) as [H0|_]; [lia|].
  rewrite Z.abs_eq by lia. reflexivity.
Qed.

Lemma length_sorted :
  length sorted
  = length (Routes.matching env
              (Routes.buildQuery (default "" (q_search q)) (default "all" (q_status q))
                 (default "all" (q_category q))) w).
Proof.
  unfold sorted, Expected.adminSelection. now rewrite merge_sort_Permutation.
Qed.

(** X19: for a limit of at least 1 and a record store that can be read, the
    pages of the admin list cut the selected documents, newest first, into
    consecutive runs: every page has at most [limit] items, every page before
    the last has exactly [limit], every page after [totalPages] is empty, and
    the pages 1 to [totalPages] joined in order are the whole selection, each
    document once. *)
Theorem listAdmin_pages_partition :
  let totalPages := ceilDiv (Z.of_nat (length sorted)) limit in
  (forall p, 1 <= p ->
     let items := Expected.adminItems env (Expected.withPage p q) w in
     Z.of_nat (length items) <= limit /\
     (p < totalPages -> Z.of_nat (length items) = limit) /\
     (totalPages < p -> items = [])) /\
  concat ((fun p => Expected.adminItems env (Expected.withPage (Z.of_nat p) q) w)
            <$> seq 1 (Z.to_nat totalPages))
  = sorted.
Proof.
  intros totalPages.
  pose proof (AdminList.ceilDiv_spec (Z.of_nat (length sorted)) limit
                ltac:(lia)) as Hceil. fold totalPages in Hceil.
  split.
  - intros p Hp items. unfold items. rewrite (adminItems_page p Hp).
    rewrite length_take, length_drop. split; [lia|]. split.
    + intros Hlt. nia.
    + intros Hgt. rewrite drop_ge; [now rewrite take_nil|]. nia.
  - assert (Hpages :
      (fun p => Expected.adminItems env (Expected.withPage (Z.of_nat p) q) w)
        <$> seq 1 (Z.to_nat totalPages)
      = (fun i => take (Z.to_nat limit) (drop (i * Z.to_nat limit) sorted))
          <$> seq 0 (Z.to_nat totalPages)).
    { rewrite <- fmap_S_seq, <- list_fmap_compose. apply list_fmap_ext.
      intros i p _. simpl. rewrite adminItems_page by lia. do 2 f_equal. nia. }
    rewrite Hpages, chunks_take. apply take_ge. nia.
Qed.

End WithEnv.

(** X20: a page number below 1, with a limit of at least 1, asks MongoDB to
    skip a negative number of documents: the query fails and the admin list
    answers 500, for every filter. *)
Theorem listAdmin_page_below_one env w q p :
  q_page q = Some p -> p < 1 -> 1 <= default 10 (q_limit q) ->
  serve (Routes.listAdmin env q) w
  = (Responded {| code := 500; success := false;
                  message := "Server error while fetching tournaments";
                  data := NoData |}, w).
Proof.
  intros Hp Hlt Hlimit.
  unfold Routes.listAdmin, serve, try_catch, json, mbind, Handler_bind, Routes.find.
  rewrite Hp. simpl.
  destruct (findFails env); [reflexivity|].
  destruct (Z.ltb_spec ((p - 1) * default 10 (q_limit q)) 0); [reflexivity | nia].
Qed.

Lemma listAdmin_page_below_one_witness :
  serve (Routes.listAdmin (Examples.calm Examples.midnight)
           {| q_page := Some 0; q_limit := None; q_search := None;
              q_status := None; q_category := None |}) Examples.world
  = (Responded {| code := 500; success := false;
                  message := "Server error while fetching tournaments";
                  data := NoData |}, Examples.world).
Proof.
  apply (listAdmin_page_below_one (Examples.calm Examples.midnight) Examples.world _ 0);
    [reflexivity | lia | simpl; lia].
Defined.

Lemma filter_none {A} (f : A -> bool) (l : list A) :
  (forall x, In x l -> f x = false) -> List.filter f l = [].
Proof.
  induction l as [|x l IH]; intros H; simpl; [reflexivity|].
  rewrite (H x) by now left. apply IH. intros y Hy. apply H. now right.
Qed.

Lemma filter_all {A} (f : A -> bool) (l : list A) :
  (forall x, In x l -> f x = true) -> List.filter f l = l.
Proof.
  induction l as [|x l IH]; intros H; simpl; [reflexivity|].
  rewrite (H x) by now left. f_equal. apply IH. intros y Hy. apply H. now right.
Qed.

(** X21: the edge values of the admin filter.  A status that is neither
    'all', 'active', 'inactive' nor one of the four status names selects
    nothing: the answer is a 200 with a total of 0, 0 pages and no items,
    not an error.  A request without search, status and category selects
    every stored tournament: the total is the size of the collection. *)
Theorem listAdmin_edge_filters env w q :
  1 <= default 1 (q_page q) -> 1 <= default 10 (q_limit q) -> findFails env = false ->
  (forall s, q_status q = Some s ->
     s ∉ ["all"; "active"; "inactive"; "upcoming"; "ongoing"; "completed"; "cancelled"] ->
     serve (Routes.listAdmin env q) w
     = (Responded {| code := 200; success := true; message := "";
                     data := Page 0 0 (default 1 (q_page q)) [] |}, w)) /\
  (q_search q = None -> q_status q = None -> q_category q = None ->
   exists totalPages items,
     serve (Routes.listAdmin env q) w
     = (Responded {| code := 200; success := true; message := "";
                     data := Page (Z.of_nat (size (db w))) totalPages
                               (default 1 (q_page q)) items |}, w)).
Proof.
  intros Hpage Hlimit Hfind. split.
  - intros s Hs Hunknown.
    assert (Hnone : Routes.matching env
                      (Routes.buildQuery (default "" (q_search q)) s
                         (default "all" (q_category q))) w = []).
    { apply filter_none. intros t _.
      destruct (Mongo.matches _ _ t) eqn:Hm; [|reflexivity].
      apply AdminList.matches_buildQuery in Hm as (_ & Hst & _). exfalso.
      apply Hunknown.
      destruct Hst as [->|[[-> _]|[[-> _]|(_ & _ & <-)]]];
        [set_solver | set_solver | set_solver |].
      destruct (status t); set_solver. }
    unfold Routes.listAdmin, serve, try_catch, json, mbind, Handler_bind,
      Routes.find, Routes.countDocuments.
    rewrite Hs, Hfind. simpl. rewrite Hnone.
    destruct (Z.ltb_spec ((default 1 (q_page q) - 1) * default 10 (q_limit q)) 0);
      [nia|].
    unfold Mongo.limitTo, Mongo.sortBy. rewrite ?Hnone.
    change (merge_sort Mongo.dateDesc []) with (@nil doc).
    rewrite drop_nil, take_nil.
    unfold ceilDiv. simpl. rewrite Z.div_0_l by lia.
    now destruct (default 10 (q_limit q) * 1 =? 0).
  - intros Hsearch Hstatus Hcategory.
    assert (Hall : Routes.matching env (Routes.buildQuery "" "all" "all") w
                   = Routes.stored w).
    { apply filter_all. intros t _. reflexivity. }
    unfold Routes.listAdmin, serve, try_catch, json, mbind, Handler_bind,
      Routes.find, Routes.countDocuments.
    rewrite Hsearch, Hstatus, Hcategory, Hfind. simpl.
    change (Routes.matching env [] w) with (Routes.matching env (Routes.buildQuery "" "all" "all") w).
    rewrite Hall.
    destruct (Z.ltb_spec ((default 1 (q_page q) - 1) * default 10 (q_limit q)) 0);
      [nia|].
    rewrite ?Hall. unfold Routes.stored at 1 2.
    rewrite !length_fmap, !length_map_to_list. eauto.
Qed.

Lemma listAdmin_edge_filters_witness :
  serve (Routes.listAdmin (Examples.calm Examples.midnight)
           {| q_page := None; q_limit := None; q_search := None;
              q_status := Some "postponed"; q_category := None |}) Examples.world
  = (Responded {| code := 200; success := true; message := "";
                  data := Page 0 0 1 [] |}, Examples.world).
Proof.
  apply (proj1 (listAdmin_edge_filters (Examples.calm Examples.midnight) Examples.world
                  {| q_page := None; q_limit := None; q_search := None;
                     q_status := Some "postponed"; q_category := None |}
                  ltac:(simpl; lia) ltac:(simpl; lia) eq_refl) "postponed" eq_refl).
  intros H.
  repeat (apply elem_of_cons in H as [H|H]; [discriminate H|]).
  now apply elem_of_nil in H.
Defined.

Lemma listAdmin_pages_partition_witness :
  concat ((fun p => Expected.adminItems (Examples.calm Examples.midnight)
                      (Expected.withPage (Z.of_nat p)
                         {| q_page := None; q_limit := Some 2; q_search := None;
                            q_status := None; q_category := None |})
                      Examples.world) <$> seq 1 2)
  = [Examples.juniorsDay; Examples.springOpen; Examples.cancelledCup].
Proof.
  pose proof (listAdmin_pages_partition (Examples.calm Examples.midnight) Examples.world
                {| q_page := None; q_limit := Some 2; q_search := None;
                   q_status := None; q_category := None |}
                ltac:(simpl; lia) eq_refl) as [_ H].
  vm_compute in H |- *. exact H.
Defined.

End Pages.

(** ** The public list, read twice *)

Module SecondRead.
Import Tournament.

#[local] Arguments Routes.save : simpl never.
#[local] Arguments Routes.saveNew : simpl never.

Lemma elem_of_stored w t : t ∈ Routes.stored w <-> exists k, db w !! k = Some t.
Proof.
  unfold Routes.stored. rewrite list_elem_of_fmap. split.
  - intros ([k t'] & -> & H). exists k. now apply elem_of_map_to_list in H.
  - intros [k H]. exists (k, t). split; [reflexivity|].
    now apply elem_of_map_to_list.
Qed.

Section WithEnv.
Context (env : Env).

Lemma updateStatuses_world l : forall w,
  Forall (fun t => schemaValid t = true /\
                   saveFails env (assignStatus (clock env) t) = false) l ->
  Routes.updateStatuses env l w
  = (Normal (assignStatus (clock env) <$> l),
     {| db := foldl (Expected.written env) (db w) l; blobs := blobs w |}).
Proof.
  induction l as [|t l IH]; intros w Hl; simpl.
  - unfold mret, Handler_ret. now rewrite HandlerFacts.world_eta.
  - inversion Hl as [|? ? [Hv Hs] Hl']; subst.
    unfold mbind, Handler_bind, Routes.updateStatus.
    rewrite HandlerFacts.save_ok by assumption.
    rewrite (IH _ Hl'). reflexivity.
Qed.

(** The record store after the loop, key by key. *)
Lemma lookup_written l : forall (m : gmap Z doc) k,
  (forall t t', t ∈ l -> t' ∈ l -> _id t = _id t' -> t = t') ->
  (forall t, t ∈ l -> _id t = k -> foldl (Expected.written env) m l !! k = Some (assignStatus (clock env) t)) /\
  ((forall t, t ∈ l -> _id t <> k) -> foldl (Expected.written env) m l !! k = m !! k).
Proof.
  induction l as [|t0 l IH]; intros m k Huniq.
  - split; [intros t Ht; now apply elem_of_nil in Ht | reflexivity].
  - assert (Huniq' : forall t t', t ∈ l -> t' ∈ l -> _id t = _id t' -> t = t').
    { intros t t' Ht Ht'. apply Huniq; now apply list_elem_of_further. }
    destruct (IH (Expected.written env m t0) k Huniq') as [IH1 IH2]. simpl. split.
    + intros t Ht Hk.
      destruct (decide (Exists (fun t' => _id t' = k) l)) as [Hex|Hno].
      * apply Exists_exists in Hex as (t' & Ht' & Hk').
        rewrite (IH1 t' Ht' Hk'). f_equal. f_equal.
        apply Huniq; [now apply list_elem_of_further | assumption | congruence].
      * rewrite IH2.
        -- apply elem_of_cons in Ht as [->|Ht].
           ++ unfold Expected.written. rewrite Hk. apply lookup_insert_eq.
           ++ exfalso. apply Hno, Exists_exists. eauto.
        -- intros t' Ht' Hk'. apply Hno, Exists_exists. eauto.
    + intros Hnone. rewrite IH2.
      * unfold Expected.written. apply lookup_insert_ne. apply Hnone, list_elem_of_here.
      * intros t Ht. apply Hnone. now apply list_elem_of_further.
Qed.

Section OnWorld.
Context (w : World).

(** Every record is stored under its own [_id]. *)
Hypothesis Hkeys : forall k t, db w !! k = Some t -> _id t = k.
Hypothesis Hfind : findFails env = false.
Hypothesis Hwrites :
  Forall (fun t => schemaValid t = true /\
                   saveFails env (assignStatus (clock env) t) = false)
         (Routes.stored w).

Let listed := Expected.listed env w.

(** The world after the first read. *)
Let w1 : World := {| db := foldl (Expected.written env) (db w) listed; blobs := blobs w |}.

Lemma listed_unique t t' : t ∈ listed -> t' ∈ listed -> _id t = _id t' -> t = t'.
Proof.
  intros Ht Ht' Hid.
  apply PublicList.elem_of_listed in Ht as [Ht _].
  apply PublicList.elem_of_listed in Ht' as [Ht' _].
  apply elem_of_stored in Ht as [k Hk]. apply elem_of_stored in Ht' as [k' Hk'].
  pose proof (Hkeys _ _ Hk). pose proof (Hkeys _ _ Hk'). congruence.
Qed.

Lemma first_read :
  serve (Routes.listPublic env) w
  = (Responded {| code := 200; success := true; message := "";
                  data := Docs (assignStatus (clock env) <$> listed) |}, w1).
Proof.
  unfold Routes.listPublic, serve, try_catch, json, mbind, Handler_bind, Routes.find.
  rewrite Hfind.
  change (Mongo.limitTo 0 (drop (Z.to_nat 0)
            (Mongo.sortBy Mongo.DateAsc
               (Routes.matching env (Routes.publicFilter env) w))))
    with listed.
  simpl. rewrite updateStatuses_world; [reflexivity|].
  rewrite Forall_forall in Hwrites |- *. intros t Ht.
  apply Hwrites. now apply PublicList.elem_of_listed in Ht.
Qed.

(** After the first read a record is the recomputed one if the query found
    it, and the old one otherwise. *)
Lemma stored_after t' :
  t' ∈ Routes.stored w1 <->
  (exists t, t ∈ listed /\ t' = assignStatus (clock env) t) \/
  (t' ∈ Routes.stored w /\ t' ∉ listed).
Proof.
  rewrite elem_of_stored. unfold w1. simpl. split.
  - intros [k Hk].
    destruct (decide (Exists (fun t => _id t = k) listed)) as [Hex|Hno].
    + apply Exists_exists in Hex as (t & Ht & Hid).
      rewrite (proj1 (lookup_written listed (db w) k listed_unique) t Ht Hid) in Hk.
      left. exists t. split; [assumption | congruence].
    + rewrite (proj2 (lookup_written listed (db w) k listed_unique)) in Hk.
      * right. split; [apply elem_of_stored; eauto|].
        intros Hin. apply Hno, Exists_exists. exists t'. split; [assumption|].
        now apply Hkeys.
      * intros t Ht Hid. apply Hno, Exists_exists. eauto.
  - intros [(t & Ht & ->)|[Hst Hnot]].
    + exists (_id t). now apply (lookup_written listed (db w) (_id t) listed_unique).
    + apply elem_of_stored in Hst as [k Hk]. exists k.
      rewrite (proj2 (lookup_written listed (db w) k listed_unique)); [assumption|].
      intros t Ht Hid. apply Hnot.
      assert (t = t') as <-; [|assumption].
      apply PublicList.elem_of_listed in Ht as [Ht _].
      apply elem_of_stored in Ht as [k' Hk'].
      pose proof (Hkeys _ _ Hk'). congruence.
Qed.

(** What the query finds on the second read: the recomputed documents of the
    first read that are still upcoming or ongoing. *)
Lemma listed_after t' :
  t' ∈ Expected.listed env w1 <->
  t' ∈ (assignStatus (clock env) <$> listed) /\ status t' <> completed.
Proof.
  rewrite PublicList.elem_of_listed, stored_after, list_elem_of_fmap. split.
  - intros ([(t & Ht & ->)|[Hst Hnot]] & Hact & Hlist & Hstatus).
    + split; [eauto|]. destruct Hstatus as [-> | ->]; discriminate.
    + exfalso. apply Hnot. apply PublicList.elem_of_listed. auto.
  - intros [(t & -> & Ht) Hnc]. split; [left; eauto|].
    apply PublicList.elem_of_listed in Ht as (_ & Hact & Hlist & _).
    repeat split; try assumption.
    rewrite Lifecycle.status_assignStatus in *.
    pose proof (Lifecycle.statusAt_not_cancelled (clock env) (date t)).
    destruct (statusAt (clock env) (date t)); auto; contradiction.
Qed.

(** The loop of the second read writes back what is stored. *)
Lemma foldl_written_same l : forall (m : gmap Z doc),
  (forall t, t ∈ l -> m !! _id t = Some t /\ assignStatus (clock env) t = t) ->
  foldl (Expected.written env) m l = m.
Proof.
  induction l as [|t l IH]; intros m Hl; [reflexivity|]. simpl.
  destruct (Hl t (list_elem_of_here _ _)) as [Hm Hs].
  assert (Hw : Expected.written env m t = m).
  { unfold Expected.written. rewrite Hs. now apply insert_id. }
  rewrite Hw. apply IH. intros t' Ht'. apply Hl. now apply list_elem_of_further.
Qed.

(** X22: a stale status is returned by one read only.  When every record is
    stored under its own id, the record store can be read and accepts the
    writes, and the stored records are valid, a first public list at some
    clock answers the found tournaments recomputed, and a second one at the
    same clock answers exactly those of them that are not completed: every
    tournament of the second answer is upcoming or ongoing, and the second
    read changes nothing in the stores. *)
Theorem listPublic_second_read :
  exists ts ts2 w',
    serve (Routes.listPublic env) w
    = (Responded {| code := 200; success := true; message := ""; data := Docs ts |}, w')
    /\ serve (Routes.listPublic env) w'
       = (Responded {| code := 200; success := true; message := ""; data := Docs ts2 |}, w')
    /\ (forall t, t ∈ ts2 <-> t ∈ ts /\ status t <> completed)
    /\ Forall (fun t => status t = upcoming \/ status t = ongoing) ts2.
Proof.
  exists (assignStatus (clock env) <$> listed), (Expected.listed env w1), w1.
  split; [exact first_read|].
  assert (Hshape : forall t', t' ∈ Expected.listed env w1 ->
                     exists t, t ∈ listed /\ t' = assignStatus (clock env) t).
  { intros t' Ht'. apply listed_after in Ht' as [Ht' _].
    apply list_elem_of_fmap in Ht' as (t & -> & Ht). eauto. }
  assert (Hfix : assignStatus (clock env) <$> Expected.listed env w1
                 = Expected.listed env w1).
  { rewrite <- (list_fmap_id (Expected.listed env w1)) at 2.
    apply list_fmap_ext. intros i t' Hi.
    apply list_elem_of_lookup_2 in Hi. destruct (Hshape t' Hi) as (t & _ & ->).
    apply Lifecycle.assignStatus_idempotent. }
  split; [|split].
  - unfold Routes.listPublic, serve, try_catch, json, mbind, Handler_bind, Routes.find.
    rewrite Hfind.
    change (Mongo.limitTo 0 (drop (Z.to_nat 0)
              (Mongo.sortBy Mongo.DateAsc
                 (Routes.matching env (Routes.publicFilter env) w1))))
      with (Expected.listed env w1).
    simpl. rewrite updateStatuses_world.
    + rewrite Hfix, foldl_written_same; [now rewrite HandlerFacts.world_eta|].
      intros t' Ht'. destruct (Hshape t' Ht') as (t & Ht & ->).
      split; [|apply Lifecycle.assignStatus_idempotent].
      change (_id (assignStatus (clock env) t)) with (_id t). unfold w1. simpl.
      now apply (lookup_written listed (db w) (_id t) listed_unique).
    + rewrite Forall_forall. intros t' Ht'. destruct (Hshape t' Ht') as (t & Ht & ->).
      rewrite Lifecycle.assignStatus_idempotent.
      rewrite Forall_forall in Hwrites.
      apply PublicList.elem_of_listed in Ht as [Ht _]. apply (Hwrites t Ht).
  - intros t. apply listed_after.
  - rewrite Forall_forall. intros t Ht.
    now apply PublicList.elem_of_listed in Ht as (_ & _ & _ & Hs).
Qed.

End OnWorld.
End WithEnv.

Lemma listPublic_second_read_witness :
  exists ts ts2 w',
    serve (Routes.listPublic (Examples.calm Examples.tenOClock)) Examples.world
    = (Responded {| code := 200; success := true; message := ""; data := Docs ts |}, w')
    /\ serve (Routes.listPublic (Examples.calm Examples.tenOClock)) w'
       = (Responded {| code := 200; success := true; message := ""; data := Docs ts2 |}, w')
    /\ Forall (fun t => status t = upcoming \/ status t = ongoing) ts2.
Proof.
  destruct (listPublic_second_read (Examples.calm Examples.tenOClock) Examples.world)
    as (ts & ts2 & w' & H1 & H2 & _ & H3).
  - intros k t Hk.
    assert (Hin : (k, t) ∈ map_to_list (db Examples.world))
      by now apply elem_of_map_to_list.
    vm_compute in Hin.
    repeat (apply elem_of_cons in Hin as [Hin|Hin];
            [injection Hin as -> ->; reflexivity|]).
    now apply elem_of_nil in Hin.
  - reflexivity.
  - vm_compute. repeat constructor.
  - exists ts, ts2, w'. auto.
Defined.

End SecondRead.

(** ** The student form: indexed achievements *)

Module FormArrays.
Import StudentForm.

Local Open Scope list_scope.

Section WithValues.
Context {V : Type} (arrayOf : list V -> V).

Lemma setIndex_elem (i : N) (v : V) a x :
  x ∈ setIndex i v a -> x = (i, v) \/ x ∈ a.
Proof.
  induction a as [|[j u] a IH]; simpl.
  - intros H. apply list_elem_of_singleton in H. now left.
  - destruct (i <? j)%N.
    + intros H. apply elem_of_cons in H as [->|H]; auto.
    + destruct (i =? j)%N.
      * intros H. apply elem_of_cons in H as [->|H]; [now left|].
        right. now apply list_elem_of_further.
      * intros H. apply elem_of_cons in H as [->|H].
        -- right. apply list_elem_of_here.
        -- destruct (IH H); [now left|]. right. now apply list_elem_of_further.
Qed.

Lemma setIndex_here (i : N) (v : V) a : (i, v) ∈ setIndex i v a.
Proof.
  induction a as [|[j u] a IH]; simpl.
  - apply list_elem_of_here.
  - destruct (i <? j)%N; [apply list_elem_of_here|].
    destruct (i =? j)%N; [apply list_elem_of_here|].
    now apply list_elem_of_further.
Qed.

Lemma setIndex_other (i : N) (v : V) a j u :
  (j, u) ∈ a -> j <> i -> (j, u) ∈ setIndex i v a.
Proof.
  intros Hin Hne. induction a as [|[j' u'] a IH]; simpl.
  - now apply elem_of_nil in Hin.
  - destruct (i <? j')%N; [now apply list_elem_of_further|].
    destruct (N.eqb_spec i j') as [->|Hij].
    + apply elem_of_cons in Hin as [[= -> ->]|Hin]; [contradiction|].
      now apply list_elem_of_further.
    + apply elem_of_cons in Hin as [[= -> ->]|Hin]; [apply list_elem_of_here|].
      apply list_elem_of_further. auto.
Qed.

Lemma setIndex_sorted (i : N) (v : V) a :
  Sorted (@Expected.byIndex V) a -> Sorted (@Expected.byIndex V) (setIndex i v a).
Proof.
  induction 1 as [|[j u] a Hs IH Hd]; simpl.
  - repeat constructor.
  - destruct (N.ltb_spec i j) as [Hlt|Hge].
    + constructor; [now constructor|]. constructor. exact Hlt.
    + destruct (N.eqb_spec i j) as [->|Hne].
      * constructor; [assumption|].
        destruct Hd as [|[j' u'] a' Hjj']; constructor. exact Hjj'.
      * constructor; [assumption|].
        destruct a as [|[j' u'] a']; simpl.
        -- constructor. unfold Expected.byIndex. simpl. lia.
        -- inversion Hd as [|? ? Hjj']; subst.
           destruct (i <? j')%N; [constructor; unfold Expected.byIndex; simpl; lia|].
           destruct (i =? j')%N; constructor; unfold Expected.byIndex; simpl; try lia.
           exact Hjj'.
Qed.

Lemma collect_snoc (body : @FormBody V) (kv : string * V) :
  collect (body ++ [kv]) = Expected.step (collect body) kv.
Proof. unfold collect. now rewrite fold_left_app. Qed.

Lemma collect_sorted (body : @FormBody V) : Sorted (@Expected.byIndex V) (collect body).
Proof.
  induction body as [|kv body IH] using rev_ind; [constructor|].
  rewrite collect_snoc. unfold Expected.step.
  destruct (indexOfKey kv.1); [|assumption].
  destruct (_ <=? _)%N; [now apply setIndex_sorted | assumption].
Qed.

Lemma collect_elem (body : @FormBody V) (i : N) (v : V) :
  (i, v) ∈ collect body ->
  exists key, (key, v) ∈ body /\ indexOfKey key = Some i /\ (i <= maxIndex)%N.
Proof.
  induction body as [|[key u] body IH] using rev_ind.
  - intros H. now apply elem_of_nil in H.
  - rewrite collect_snoc. unfold Expected.step. simpl.
    assert (Hold : (i, v) ∈ collect body ->
                   exists key0, (key0, v) ∈ body ++ [(key, u)] /\
                                indexOfKey key0 = Some i /\ (i <= maxIndex)%N).
    { intros H. destruct (IH H) as (key0 & Hin & Hk & Hi). exists key0.
      split; [|auto]. apply elem_of_app. now left. }
    destruct (indexOfKey key) as [j|] eqn:Hj; [|exact Hold].
    destruct (N.leb_spec j maxIndex) as [Hle|Hgt]; [|exact Hold].
    intros H. apply setIndex_elem in H as [[= -> ->]|H]; [|auto].
    exists key. split; [|auto]. apply elem_of_app. right. apply list_elem_of_here.
Qed.

Lemma collect_complete (body : @FormBody V) :
  (forall k1 (v1 : V) k2 (v2 : V) i, (k1, v1) ∈ body -> (k2, v2) ∈ body ->
     indexOfKey k1 = Some i -> indexOfKey k2 = Some i -> v1 = v2) ->
  forall key (v : V) i, (key, v) ∈ body -> indexOfKey key = Some i -> (i <= maxIndex)%N ->
    (i, v) ∈ collect body.
Proof.
  induction body as [|[key0 u] body IH] using rev_ind; intros Hdistinct key v i Hin Hk Hi.
  - now apply elem_of_nil in Hin.
  - rewrite collect_snoc. unfold Expected.step. simpl.
    assert (IH' : forall key v i, (key, v) ∈ body -> indexOfKey key = Some i ->
                    (i <= maxIndex)%N -> (i, v) ∈ collect body).
    { apply IH. intros k1 v1 k2 v2 j H1 H2. apply Hdistinct; apply elem_of_app; now left. }
    apply elem_of_app in Hin as [Hin|Hin].
    + destruct (indexOfKey key0) as [j|] eqn:Hj; [|eauto].
      destruct (N.leb_spec j maxIndex) as [Hle|Hgt]; [|eauto].
      destruct (N.eq_dec i j) as [->|Hne].
      * assert (v = u) as ->.
        { apply (Hdistinct key v key0 u j); [apply elem_of_app; now left | | assumption..].
          apply elem_of_app. right. apply list_elem_of_here. }
        apply setIndex_here.
      * apply setIndex_other; eauto.
    + apply list_elem_of_singleton in Hin as [= -> ->]. rewrite Hk.
      apply N.leb_le in Hi. rewrite Hi. apply setIndex_here.
Qed.

Lemma setKey_elem key (v : V) (body : @FormBody V) : (key, v) ∈ setKey key v body.
Proof.
  induction body as [|[k u] body IH]; simpl; [apply list_elem_of_here|].
  destruct (String.eqb k key); [apply list_elem_of_here|].
  now apply list_elem_of_further.
Qed.

(** Setting a key leaves the entries of the other keys, in their order. *)
Lemma setKey_others key (v : V) (body : @FormBody V) :
  List.filter (fun kv => negb (String.eqb kv.1 key)) (setKey key v body)
  = List.filter (fun kv => negb (String.eqb kv.1 key)) body.
Proof.
  induction body as [|[k u] body IH]; simpl.
  - now rewrite String.eqb_refl.
  - destruct (String.eqb k key) eqn:E; simpl.
    + now rewrite String.eqb_refl.
    + now rewrite E, IH.
Qed.

(** X23: [handleFormDataArrays] gathers the fields [achievements[<digits>]]
    into one array ordered by index, whatever the order in which the keys
    arrive: the indices of the gathered elements increase strictly, every
    element is the value of such a key with an index of at most [2^32 - 2],
    every such value is gathered when no two keys carry the same index, and
    when at least one element is gathered the body that is passed on has the
    key [achievements] with the array of the gathered values. *)
Theorem handleFormDataArrays_gathers (body : @FormBody V) :
  Sorted (@Expected.byIndex V) (collect body) /\
  (forall i (v : V), (i, v) ∈ collect body ->
     exists key, (key, v) ∈ body /\ indexOfKey key = Some i /\ (i <= maxIndex)%N) /\
  ((forall k1 (v1 : V) k2 (v2 : V) i, (k1, v1) ∈ body -> (k2, v2) ∈ body ->
      indexOfKey k1 = Some i -> indexOfKey k2 = Some i -> v1 = v2) ->
   forall key (v : V) i, (key, v) ∈ body -> indexOfKey key = Some i -> (i <= maxIndex)%N ->
     (i, v) ∈ collect body /\
     ("achievements", arrayOf ((collect body).*2)) ∈ handleFormDataArrays arrayOf body).
Proof.
  split; [apply collect_sorted|]. split; [apply collect_elem|].
  intros Hdistinct key v i Hin Hk Hi.
  pose proof (collect_complete body Hdistinct key v i Hin Hk Hi) as Hc.
  split; [exact Hc|].
  unfold handleFormDataArrays.
  destruct (collect body) as [|x a]; [now apply elem_of_nil in Hc|].
  apply setKey_elem.
Qed.

(** X24: [handleFormDataArrays] removes every key of the form
    [achievements[<digits>]] and leaves the other fields as they are: no such
    key is passed on, the entries of the keys other than [achievements] are
    those of the request body that are not indexed, in the same order, and a
    body without an indexed key is passed on unchanged. *)
Theorem handleFormDataArrays_keeps_fields (body : @FormBody V) :
  (forall kv, kv ∈ handleFormDataArrays arrayOf body -> indexOfKey kv.1 = None) /\
  List.filter (fun kv => negb (String.eqb kv.1 "achievements"))
              (handleFormDataArrays arrayOf body)
  = List.filter (fun kv => negb (String.eqb kv.1 "achievements"))
                (withoutIndexed body) /\
  ((forall kv, kv ∈ body -> indexOfKey kv.1 = None) ->
   handleFormDataArrays arrayOf body = body).
Proof.
  assert (Hwithout : forall kv, kv ∈ withoutIndexed body -> indexOfKey kv.1 = None).
  { intros kv Hkv. unfold withoutIndexed in Hkv.
    apply list_elem_of_In, List.filter_In in Hkv as [_ Hkv].
    now destruct (indexOfKey kv.1). }
  split; [|split].
  - intros kv. unfold handleFormDataArrays.
    destruct (collect body) as [|x a]; [apply Hwithout|].
    generalize (arrayOf ((x :: a).*2)) as value. intros value.
    revert Hwithout. generalize (withoutIndexed body) as b. intros b.
    induction b as [|[k u] b IH]; simpl; intros Hb Hkv.
    + apply list_elem_of_singleton in Hkv as ->. reflexivity.
    + destruct (String.eqb k "achievements").
      * apply elem_of_cons in Hkv as [->|Hkv]; [reflexivity|].
        apply Hb. now apply list_elem_of_further.
      * apply elem_of_cons in Hkv as [->|Hkv]; [apply (Hb (k, u)), list_elem_of_here|].
        apply IH; [|assumption]. intros kv' Hkv'. apply Hb. now apply list_elem_of_further.
  - unfold handleFormDataArrays.
    destruct (collect body); [reflexivity | apply setKey_others].
  - intros Hnone.
    assert (Hfold : forall (b : @FormBody V) (a : @SparseArray V),
              (forall kv, kv ∈ b -> indexOfKey kv.1 = None) ->
              fold_left (fun a kv =>
                           match indexOfKey kv.1 with
                           | Some index =>
                               if (index <=? maxIndex)%N then setIndex index kv.2 a else a
                           | None => a
                           end) b a = a).
    { induction b as [|kv b IH]; intros a Hb; [reflexivity|]. simpl.
      rewrite (Hb kv (list_elem_of_here _ _)). apply IH.
      intros kv' Hkv'. apply Hb. now apply list_elem_of_further. }
    unfold handleFormDataArrays, collect. rewrite (Hfold body [] Hnone).
    unfold withoutIndexed. apply Pages.filter_all.
    intros kv Hkv. apply list_elem_of_In in Hkv. now rewrite (Hnone kv Hkv).
Qed.

End WithValues.

Lemma handleFormDataArrays_gathers_witness :
  ("achievements", "first|second")
  ∈ handleFormDataArrays (String.concat "|")
      [("name", "Ann"); ("achievements[1]", "second"); ("achievements[0]", "first")].
Proof.
  destruct (handleFormDataArrays_gathers (String.concat "|")
              [("name", "Ann"); ("achievements[1]", "second"); ("achievements[0]", "first")])
    as (_ & _ & H).
  apply (H ltac:(intros k1 v1 k2 v2 i H1 H2;
                 repeat (apply elem_of_cons in H1 as [[= -> ->]|H1]);
                 try (now apply elem_of_nil in H1);
                 repeat (apply elem_of_cons in H2 as [[= -> ->]|H2]);
                 try (now apply elem_of_nil in H2);
                 vm_compute; congruence)
           "achievements[0]" "first" 0%N).
  - apply list_elem_of_further, list_elem_of_further, list_elem_of_here.
  - reflexivity.
  - vm_compute. discriminate.
Defined.

Lemma handleFormDataArrays_keeps_fields_witness :
  handleFormDataArrays (String.concat "|") [("name", "Ann"); ("bio", "plays chess")]
  = [("name", "Ann"); ("bio", "plays chess")].
Proof.
  apply (handleFormDataArrays_keeps_fields (String.concat "|")).
  intros kv H.
  repeat (apply elem_of_cons in H as [->|H]; [reflexivity|]).
  now apply elem_of_nil in H.
Defined.

End FormArrays.
